(** * Debt Management System: the ledger transaction engine

  A shallow embedding of the financial core of the repository:
  - [utils/decimalMath.js]           (module [DecimalMath])
  - [models/Debt.js]                 (module [Debt])
  - [models/Customer.js]             (module [Customer])
  - [models/Payment.js]              (module [Payment])
  - [models/AuditLog.js]             (module [AuditLog])
  - [services/debtService.js]        (module [DebtService])
  - [services/paymentService.js]     (module [PaymentService])
  - [services/customerService.js]    (module [CustomerService])
  - [services/syncService.js]        (module [SyncService])
  - [Debt.updateAgingBuckets]        (module [AgingJob])
  - [api/middlewares/idempotency.js] with the route it guards
                                     (module [Idempotency])

  Conventions of the embedding.
  - A monetary value (a decimal.js [Decimal], stored as a Decimal128) is
    an integer number of units of 10^-9, the smallest magnitude of the
    configured range (minE = -9).  Inside that range [plus], [minus] and
    the comparisons of decimal.js are exact, which is what is modelled.
  - An ObjectId is a natural number; a [Date] is an integer number of
    milliseconds since the epoch, and the expiry of a Redis key is kept on
    the same clock.
  - A collection is a finite map from ObjectId to document.
  - [new Date()] is the [now] argument of the operation that reads the
    clock. *)

From Stdlib Require Import ZArith Lia Bool List Ascii String.
From stdpp Require Import gmap strings list fin_maps.
Import ListNotations.

Local Open Scope Z_scope.

(** ** config/constants.js *)

Inductive DEBT_STATUS := OPEN | PARTIAL | PAID | CANCELLED.

Inductive AGING_BUCKETS :=
CURRENT | DAYS_0_30 | DAYS_31_60 | DAYS_61_90 | DAYS_90_PLUS.

Inductive PAYMENT_METHODS := CASH | CARD | TRANSFER | WALLET_ADJUSTMENT.

Inductive AUDIT_ACTIONS :=
| DEBT_CREATE | DEBT_UPDATE | DEBT_DELETE | PAYMENT_CREATE
| CUSTOMER_CREATE | CUSTOMER_UPDATE | CUSTOMER_DELETE
| USER_LOGIN | USER_CREATE | USER_UPDATE.

Definition IDEMPOTENCY_KEY_PREFIX : string := "idempotency:".
Definition IDEMPOTENCY_TTL_SECONDS : Z := 86400.

Definition DEBT_STATUS_eqb (a b : DEBT_STATUS) : bool :=
match a, b with
| OPEN, OPEN | PARTIAL, PARTIAL | PAID, PAID | CANCELLED, CANCELLED => true
| _, _ => false
end.

Definition AGING_BUCKETS_eqb (a b : AGING_BUCKETS) : bool :=
match a, b with
| CURRENT, CURRENT | DAYS_0_30, DAYS_0_30 | DAYS_31_60, DAYS_31_60
| DAYS_61_90, DAYS_61_90 | DAYS_90_PLUS, DAYS_90_PLUS => true
| _, _ => false
end.

(** ** utils/errorHandler.js

  The error classes thrown by the services.  [DuplicateKeyError] is the
  driver's E11000 error of a unique index, [MongooseValidationError] the
  error of a failed schema validator, [HookError] the plain [Error] handed
  to [next] by a schema hook, [TypeError] the JavaScript error of reading
  a property of [null]. *)

Inductive AppError :=
| ValidationError
| NotFoundError
| ConflictError
| UnprocessableEntityError
| ForbiddenError
| DuplicateKeyError
| MongooseValidationError
| HookError
| TypeError.

(** ** utils/decimalMath.js *)

Module DecimalMath.

Definition Decimal := Z.

(** One currency unit and the 0.01 tolerance, in units of 10^-9. *)
Definition currencyUnit : Decimal := 1000000000.
Definition cent : Decimal := 10000000.

Definition fromDecimal128 (value : Z) : Decimal := value.
Definition toDecimal128 (value : Decimal) : Z := value.

Definition add (a b : Z) : Decimal := fromDecimal128 a + fromDecimal128 b.
Definition subtract (a b : Z) : Decimal := fromDecimal128 a - fromDecimal128 b.
Definition multiply (a b : Z) : Decimal := fromDecimal128 a * fromDecimal128 b.

Definition isGreaterThan (a b : Z) : bool := fromDecimal128 b <? fromDecimal128 a.
Definition isLessThan (a b : Z) : bool := fromDecimal128 a <? fromDecimal128 b.
Definition isGreaterThanOrEqual (a b : Z) : bool := fromDecimal128 b <=? fromDecimal128 a.
Definition isLessThanOrEqual (a b : Z) : bool := fromDecimal128 a <=? fromDecimal128 b.
Definition equals (a b : Z) : bool := fromDecimal128 a =? fromDecimal128 b.
Definition isZero (value : Z) : bool := fromDecimal128 value =? 0.

(** decimal.js answers [isPositive] from the sign field alone
    ([this.s > 0]); the sign of zero is +1, so zero is "positive". *)
Definition isPositive (value : Z) : bool := 0 <=? fromDecimal128 value.
Definition isNegative (value : Z) : bool := fromDecimal128 value <? 0.

Definition sum (values : list Z) : Decimal :=
  fold_left (fun total value => add total value) values 0.

Definition abs (value : Z) : Decimal := Z.abs (fromDecimal128 value).

End DecimalMath.

Import DecimalMath.

(** ** models/Debt.js *)

Module Debt.

Record Item := mkItem {
  description : string;
  quantity : Z;
  price : Decimal;
  total : Decimal;
}.

Record t := mk {
  companyId : nat;
  customerId : nat;
  reference : string;
  totalAmount : Decimal;
  outstandingAmount : Decimal;
  status : DEBT_STATUS;
  agingBucket : AGING_BUCKETS;
  dueAt : Z;
  items : list Item;
}.

Definition set_totalAmount (v : Decimal) (d : t) : t :=
  mk (companyId d) (customerId d) (reference d) v
     (outstandingAmount d) (status d) (agingBucket d) (dueAt d) (items d).

Definition set_outstandingAmount (v : Decimal) (d : t) : t :=
  mk (companyId d) (customerId d) (reference d) (totalAmount d)
     v (status d) (agingBucket d) (dueAt d) (items d).

Definition set_status (s : DEBT_STATUS) (d : t) : t :=
  mk (companyId d) (customerId d) (reference d) (totalAmount d)
     (outstandingAmount d) s (agingBucket d) (dueAt d) (items d).

Definition set_agingBucket (b : AGING_BUCKETS) (d : t) : t :=
  mk (companyId d) (customerId d) (reference d) (totalAmount d)
     (outstandingAmount d) (status d) b (dueAt d) (items d).

Definition set_items (l : list Item) (d : t) : t :=
  mk (companyId d) (customerId d) (reference d) (totalAmount d)
     (outstandingAmount d) (status d) (agingBucket d) (dueAt d) l.

(** [debtSchema.pre('validate')]: every item total is recomputed as
    price times quantity. *)
Definition preValidate (d : t) : t :=
  set_items
    (map (fun item =>
            mkItem (description item) (quantity item) (price item)
                   (toDecimal128 (fromDecimal128 (price item) * quantity item)))
         (items d))
    d.

(** The validators of [debtItemSchema] and [debtSchema] that a document
    with every field present can still fail: required strings must not be
    empty, lengths are bounded, a quantity is not negative and there is at
    least one item. *)
Definition itemValid (item : Item) : bool :=
  negb (String.eqb (description item) EmptyString) &&
  (String.length (description item) <=? 500)%nat &&
  (0 <=? quantity item).

Definition validateSync (d : t) : bool :=
  negb (String.eqb (reference d) EmptyString) &&
  (String.length (reference d) <=? 100)%nat &&
  match items d with [] => false | _ :: _ => true end &&
  forallb itemValid (items d).

(** [debtSchema.methods.updateStatus]: mutates [this.status]. *)
Definition updateStatus (this : t) : t :=
  let outstanding := fromDecimal128 (outstandingAmount this) in
  let total := fromDecimal128 (totalAmount this) in
  if DEBT_STATUS_eqb (status this) CANCELLED then this
  else if outstanding =? 0 then set_status PAID this
  else if outstanding <? total then set_status PARTIAL this
  else set_status OPEN this.

Definition msPerDay : Z := 1000 * 60 * 60 * 24.

(** [Math.floor((now - dueDate) / msPerDay)]. *)
Definition daysOverdue (now : Z) (this : t) : Z := (now - dueAt this) / msPerDay.

(** [debtSchema.methods.calculateAgingBucket]. *)
Definition calculateAgingBucket (now : Z) (this : t) : AGING_BUCKETS :=
  if DEBT_STATUS_eqb (status this) PAID || DEBT_STATUS_eqb (status this) CANCELLED
  then CURRENT
  else
    let days := daysOverdue now this in
    if days <? 0 then CURRENT
    else if days <=? 30 then DAYS_0_30
    else if days <=? 60 then DAYS_31_60
    else if days <=? 90 then DAYS_61_90
    else DAYS_90_PLUS.

End Debt.

(** ** models/Customer.js *)

Module Customer.

Record t := mk {
  companyId : nat;
  creditLimit : Decimal;
  debtBalance : Decimal;
  creditBalance : Decimal;
  lastTransactionAt : option Z;
  version : Z;
  isActive : bool;
}.

Definition set_creditLimit (v : Decimal) (c : t) : t :=
  mk (companyId c) v (debtBalance c) (creditBalance c)
     (lastTransactionAt c) (version c) (isActive c).

Definition set_debtBalance (v : Decimal) (c : t) : t :=
  mk (companyId c) (creditLimit c) v (creditBalance c)
     (lastTransactionAt c) (version c) (isActive c).

Definition set_creditBalance (v : Decimal) (c : t) : t :=
  mk (companyId c) (creditLimit c) (debtBalance c) v
     (lastTransactionAt c) (version c) (isActive c).

Definition set_lastTransactionAt (v : option Z) (c : t) : t :=
  mk (companyId c) (creditLimit c) (debtBalance c) (creditBalance c)
     v (version c) (isActive c).

Definition set_version (v : Z) (c : t) : t :=
  mk (companyId c) (creditLimit c) (debtBalance c) (creditBalance c)
     (lastTransactionAt c) v (isActive c).

Definition set_isActive (v : bool) (c : t) : t :=
  mk (companyId c) (creditLimit c) (debtBalance c) (creditBalance c)
     (lastTransactionAt c) (version c) v.

(** [customerSchema.methods.canAcceptDebt]. *)
Definition canAcceptDebt (this : t) (amount : Decimal) : bool :=
  let currentDebt := fromDecimal128 (debtBalance this) in
  let newAmount := fromDecimal128 amount in
  let limit := fromDecimal128 (creditLimit this) in
  let totalDebt := currentDebt + newAmount in
  totalDebt <=? limit.


(** [customerSchema.methods.incrementVersion]: [this.version += 1]. *)
Definition incrementVersion (this : t) : t := set_version (version this + 1) this.

End Customer.

(** ** models/Payment.js *)

Module Payment.

(** An element of [appliedToDebts] ([appliedDebtSchema]); the entries of a
    request have the same two fields. *)
Module AppliedDebt.
Record t := mk {
  debtId : nat;
  amount : Decimal;
}.
End AppliedDebt.

Record t := mk {
  companyId : nat;
  customerId : nat;
  amount : Decimal;
  method : PAYMENT_METHODS;
  appliedToDebts : list AppliedDebt.t;
  addedToCreditBalance : Decimal;
  idempotencyKey : option string;
  paidAt : Z;
  createdBy : nat;
}.

Definition set_amount (v : Decimal) (p : t) : t :=
  mk (companyId p) (customerId p) v (method p) (appliedToDebts p)
     (addedToCreditBalance p) (idempotencyKey p) (paidAt p) (createdBy p).

Definition set_method (v : PAYMENT_METHODS) (p : t) : t :=
  mk (companyId p) (customerId p) (amount p) v (appliedToDebts p)
     (addedToCreditBalance p) (idempotencyKey p) (paidAt p) (createdBy p).

Definition set_addedToCreditBalance (v : Decimal) (p : t) : t :=
  mk (companyId p) (customerId p) (amount p) (method p) (appliedToDebts p)
     v (idempotencyKey p) (paidAt p) (createdBy p).

Definition set_paidAt (v : Z) (p : t) : t :=
  mk (companyId p) (customerId p) (amount p) (method p) (appliedToDebts p)
     (addedToCreditBalance p) (idempotencyKey p) v (createdBy p).

(** The sum computed by the [reduce] of the hook, and used by the
    properties of the record: the amounts of [appliedToDebts] added up from 0. *)
Definition totalAppliedOf (applied : list AppliedDebt.t) : Decimal :=
  fold_left (fun sum applied => sum + AppliedDebt.amount applied) applied 0.

(** [paymentSchema.pre('validate')]: [true] when the hook calls [next()]
    without an error.  The hook computes on [parseFloat] values; the
    embedding computes the same expression exactly. *)
Definition preValidate (this : t) : bool :=
  match appliedToDebts this with
  | [] => true
  | _ :: _ =>
    let totalApplied := totalAppliedOf (appliedToDebts this) in
    let paymentAmount := amount this in
    let creditBalance := addedToCreditBalance this in
    let total := totalApplied + creditBalance in
    let diff := Z.abs (total - paymentAmount) in
    negb (cent <? diff)
  end.

End Payment.

(** ** models/AuditLog.js *)

Module AuditLog.

(** One element of the [debtsUpdated] list of a payment's audit payload. *)
Record DebtUpdate := mkDebtUpdate {
  debtId : nat;
  reference : string;
  previousOutstanding : Decimal;
  newOutstanding : Decimal;
  status : DEBT_STATUS;
}.

Inductive Payload :=
| DebtCreated (customerId : nat) (reference : string) (totalAmount : Decimal) (dueAt : Z)
| DebtDeleted (reference : string) (totalAmount : Decimal)
| PaymentCreated (customerId : nat) (amount : Decimal) (method : PAYMENT_METHODS)
    (debtsUpdated : list DebtUpdate) (addedToCreditBalance : Decimal)
    (newCustomerDebtBalance newCustomerCreditBalance : Decimal)
| CustomerUpdated (creditLimit : option Decimal)
| CustomerDeleted.

Record t := mk {
  companyId : nat;
  userId : nat;
  action : AUDIT_ACTIONS;
  entity : string;
  entityId : nat;
  payload : Payload;
  timestamp : Z;
}.

End AuditLog.

(** ** The database

    The three ledger collections and the audit trail.  The [_id] of a
    document is its key in the collection.  [nextObjectId] is the ObjectId
    the driver gives to a document built with [new Model]: one that no
    document of the collection has. *)

Record Store := mkStore {
  customers : gmap nat Customer.t;
  debts : gmap nat Debt.t;
  payments : gmap nat Payment.t;
  auditLogs : list AuditLog.t;
}.

Definition nextObjectId {A : Type} (collection : gmap nat A) : nat :=
  fresh (dom collection).

Definition with_customers (m : gmap nat Customer.t) (st : Store) : Store :=
  mkStore m (debts st) (payments st) (auditLogs st).

Definition with_debts (m : gmap nat Debt.t) (st : Store) : Store :=
  mkStore (customers st) m (payments st) (auditLogs st).

Definition with_payments (m : gmap nat Payment.t) (st : Store) : Store :=
  mkStore (customers st) (debts st) m (auditLogs st).

Definition with_auditLogs (l : list AuditLog.t) (st : Store) : Store :=
  mkStore (customers st) (debts st) (payments st) l.

(** ** Sessions and transactions

    A computation inside [session.startTransaction()]: it reads and writes
    a working copy of the database and either throws or returns.
    [runTransaction] is the [try]/[catch] of the services: the working copy
    replaces the database on [commitTransaction] and is dropped on
    [abortTransaction], where the error is thrown on. *)

Definition Tx (A : Type) : Type := Store -> AppError + (A * Store).

Definition ret {A : Type} (a : A) : Tx A := fun st => inr (a, st).

Definition throw {A : Type} (e : AppError) : Tx A := fun _ => inl e.

Definition bind {A B : Type} (m : Tx A) (k : A -> Tx B) : Tx B :=
  fun st => match m st with
            | inl e => inl e
            | inr (a, st') => k a st'
            end.

Notation "'await' x <- m ; k" := (bind m (fun x => k))
  (at level 10, x name, m at level 100, k at level 200, only parsing).
Notation "'exec' m ; k" := (bind m (fun _ => k))
  (at level 10, m at level 100, k at level 200, only parsing).

Definition runTransaction {A : Type} (body : Tx A) (st : Store) : Store * (AppError + A) :=
  match body st with
  | inl e => (st, inl e)
  | inr (a, st') => (st', inr a)
  end.

(** [Customer.findOne({ _id, companyId })]. *)
Definition lookupCustomer (st : Store) (companyId customerId : nat) : option Customer.t :=
  match customers st !! customerId with
  | Some c => if Nat.eqb (Customer.companyId c) companyId then Some c else None
  | None => None
  end.

(** [Debt.findOne({ _id, companyId, customerId })]. *)
Definition lookupDebt (st : Store) (companyId customerId debtId : nat) : option Debt.t :=
  match debts st !! debtId with
  | Some d =>
    if Nat.eqb (Debt.companyId d) companyId && Nat.eqb (Debt.customerId d) customerId
    then Some d else None
  | None => None
  end.

(** [Debt.findOne({ _id, companyId })]. *)
Definition lookupDebtOfCompany (st : Store) (companyId debtId : nat) : option Debt.t :=
  match debts st !! debtId with
  | Some d => if Nat.eqb (Debt.companyId d) companyId then Some d else None
  | None => None
  end.

Definition findOrThrow {A : Type} (find : Store -> option A) (e : AppError) : Tx A :=
  fun st => match find st with
            | Some a => inr (a, st)
            | None => inl e
            end.

(** [debt.save({ session })] of a document built with [new Debt]: the
    validate hook runs, then the schema validators, then the document is
    inserted under its [_id]. *)
Definition insertDebt (_id : nat) (d : Debt.t) : Tx Debt.t :=
  fun st =>
    let d' := Debt.preValidate d in
    if negb (Debt.validateSync d') then inl MongooseValidationError
    else inr (d', with_debts (<[_id := d']> (debts st)) st).

(** [debt.save({ session })] of a document that was read from the
    collection: the validate hook runs and the document is written back
    (the paths the services and typed changesets modify have no validator
    that a typed value fails). *)
Definition saveDebt (_id : nat) (d : Debt.t) : Tx Debt.t :=
  fun st =>
    let d' := Debt.preValidate d in
    inr (d', with_debts (<[_id := d']> (debts st)) st).

(** [customer.save({ session })]. *)
Definition saveCustomer (_id : nat) (c : Customer.t) : Tx unit :=
  fun st => inr (tt, with_customers (<[_id := c]> (customers st)) st).

(** The unique sparse index on [idempotencyKey]: another payment already
    holds the key. *)
Definition idempotencyKeyTaken (key : option string) (self : nat)
    (ps : gmap nat Payment.t) : bool :=
  match key with
  | None => false
  | Some k =>
    existsb (fun entry : nat * Payment.t =>
               negb (Nat.eqb (fst entry) self) &&
               match Payment.idempotencyKey (snd entry) with
               | Some k' => String.eqb k k'
               | None => false
               end)
            (map_to_list ps)
  end.

(** [payment.save({ session })]: the validate hook, then the unique index,
    then the write. *)
Definition savePayment (_id : nat) (p : Payment.t) : Tx unit :=
  fun st =>
    if negb (Payment.preValidate p) then inl HookError
    else if idempotencyKeyTaken (Payment.idempotencyKey p) _id (payments st)
    then inl DuplicateKeyError
    else inr (tt, with_payments (<[_id := p]> (payments st)) st).

(** [AuditLog.logAction]: the entry is appended to the trail. *)
Definition logAction (entry : AuditLog.t) : Tx unit :=
  fun st => inr (tt, with_auditLogs (auditLogs st ++ [entry]) st).

(** ** services/paymentService.js *)

Module PaymentService.

Record PaymentData := mkPaymentData {
  amount : Decimal;
  method : PAYMENT_METHODS;
  appliedToDebts : list Payment.AppliedDebt.t;
  paidAt : option Z;
  idempotencyKey : option string;
}.

(** The [for (const application of appliedToDebts)] loop, carrying
    [totalApplied] and [debtUpdates]. *)
Fixpoint applyToDebts (companyId customerId : nat)
    (applications : list Payment.AppliedDebt.t)
    (totalApplied : Decimal) (debtUpdates : list AuditLog.DebtUpdate)
    : Tx (Decimal * list AuditLog.DebtUpdate) :=
  match applications with
  | [] => ret (totalApplied, debtUpdates)
  | application :: rest =>
    let applyAmount := fromDecimal128 (Payment.AppliedDebt.amount application) in
    if negb (isPositive applyAmount) then throw ValidationError
    else
      await debt <- findOrThrow
                 (fun st => lookupDebt st companyId customerId
                              (Payment.AppliedDebt.debtId application))
                 NotFoundError ;
      let outstanding := fromDecimal128 (Debt.outstandingAmount debt) in
      if isGreaterThan applyAmount outstanding then throw ValidationError
      else
        let newOutstanding := subtract outstanding applyAmount in
        let debt := Debt.set_outstandingAmount (toDecimal128 newOutstanding) debt in
        let debt := Debt.updateStatus debt in
        await debt <- saveDebt (Payment.AppliedDebt.debtId application) debt ;
        applyToDebts companyId customerId rest
          (add totalApplied applyAmount)
          (debtUpdates ++
             [AuditLog.mkDebtUpdate (Payment.AppliedDebt.debtId application)
                (Debt.reference debt) outstanding newOutstanding (Debt.status debt)])
  end.

(** The body of the [try] block of [createPayment]. *)
Definition createPaymentBody (companyId customerId : nat)
    (paymentData : PaymentData) (userId : nat) (now : Z) : Tx (nat * Payment.t) :=
  let paymentAmount := fromDecimal128 (amount paymentData) in
  if negb (isPositive paymentAmount) then throw ValidationError
  else
    await customer <- findOrThrow (fun st => lookupCustomer st companyId customerId)
                   NotFoundError ;
    await applied <- applyToDebts companyId customerId (appliedToDebts paymentData) 0 [] ;
    let totalApplied := fst applied in
    let debtUpdates := snd applied in
    if isGreaterThan totalApplied paymentAmount then throw ValidationError
    else
      let addedToCreditBalance := subtract paymentAmount totalApplied in
      let currentDebtBalance := fromDecimal128 (Customer.debtBalance customer) in
      let newDebtBalance := subtract currentDebtBalance totalApplied in
      let currentCreditBalance := fromDecimal128 (Customer.creditBalance customer) in
      let newCreditBalance := add currentCreditBalance addedToCreditBalance in
      let paidOn := match paidAt paymentData with Some t => t | None => now end in
      let customer := Customer.set_debtBalance (toDecimal128 newDebtBalance) customer in
      let customer := Customer.set_creditBalance (toDecimal128 newCreditBalance) customer in
      let customer := Customer.set_lastTransactionAt (Some paidOn) customer in
      let customer := Customer.incrementVersion customer in
      exec saveCustomer customerId customer ;
      await paymentId <- (fun st => inr (nextObjectId (payments st), st)) ;
      let payment :=
        Payment.mk companyId customerId
          (toDecimal128 paymentAmount)
          (method paymentData)
          (map (fun app =>
                  Payment.AppliedDebt.mk (Payment.AppliedDebt.debtId app)
                    (toDecimal128 (Payment.AppliedDebt.amount app)))
               (appliedToDebts paymentData))
          (toDecimal128 addedToCreditBalance)
          (idempotencyKey paymentData)
          paidOn
          userId in
      exec savePayment paymentId payment ;
      exec logAction
        (AuditLog.mk companyId userId PAYMENT_CREATE "Payment" paymentId
           (AuditLog.PaymentCreated customerId paymentAmount (method paymentData)
              debtUpdates addedToCreditBalance newDebtBalance newCreditBalance)
           now) ;
      ret (paymentId, payment).

(** [createPayment]: the body inside one transaction. *)
Definition createPayment (companyId customerId : nat)
    (paymentData : PaymentData) (userId : nat) (now : Z) (st : Store)
    : Store * (AppError + nat * Payment.t) :=
  runTransaction (createPaymentBody companyId customerId paymentData userId now) st.

End PaymentService.

(** ** services/debtService.js *)

Module DebtService.

Record DebtData := mkDebtData {
  customerId : option nat;
  reference : string;
  totalAmount : Decimal;
  dueAt : option Z;
  items : list Debt.Item;
}.

(** [!customerId || !reference || !totalAmount || !dueAt || items.length === 0]. *)
Definition missingRequiredFields (debtData : DebtData) : bool :=
  match customerId debtData with None => true | Some _ => false end
  || String.eqb (reference debtData) EmptyString
  || (totalAmount debtData =? 0)
  || match dueAt debtData with None => true | Some _ => false end
  || match items debtData with [] => true | _ :: _ => false end.

Definition createDebtBody (companyId : nat) (debtData : DebtData)
    (userId : nat) (now : Z) : Tx (nat * Debt.t) :=
  if missingRequiredFields debtData then throw ValidationError
  else
    match customerId debtData, dueAt debtData with
    | Some customerId, Some dueAt =>
      await customer <- findOrThrow (fun st => lookupCustomer st companyId customerId)
                     NotFoundError ;
      let debtAmount := fromDecimal128 (totalAmount debtData) in
      if negb (Customer.canAcceptDebt customer debtAmount)
      then throw UnprocessableEntityError
      else
        await debtId <- (fun st => inr (nextObjectId (debts st), st)) ;
        let debt :=
          Debt.mk companyId customerId (reference debtData)
            (toDecimal128 debtAmount) (toDecimal128 debtAmount)
            OPEN CURRENT dueAt (items debtData) in
        let debt := Debt.set_agingBucket (Debt.calculateAgingBucket now debt) debt in
        await debt <- insertDebt debtId debt ;
        let currentDebtBalance := fromDecimal128 (Customer.debtBalance customer) in
        let newDebtBalance := add currentDebtBalance debtAmount in
        let customer := Customer.set_debtBalance (toDecimal128 newDebtBalance) customer in
        let customer := Customer.set_lastTransactionAt (Some now) customer in
        let customer := Customer.incrementVersion customer in
        exec saveCustomer customerId customer ;
        exec logAction
          (AuditLog.mk companyId userId DEBT_CREATE "Debt" debtId
             (AuditLog.DebtCreated customerId (reference debtData) debtAmount dueAt)
             now) ;
        ret (debtId, debt)
    | _, _ => throw ValidationError
    end.

Definition createDebt (companyId : nat) (debtData : DebtData)
    (userId : nat) (now : Z) (st : Store) : Store * (AppError + nat * Debt.t) :=
  runTransaction (createDebtBody companyId debtData userId now) st.

Definition cancelDebtBody (companyId debtId userId : nat) (now : Z) : Tx Debt.t :=
  await debt <- findOrThrow (fun st => lookupDebtOfCompany st companyId debtId)
             NotFoundError ;
  let outstanding := fromDecimal128 (Debt.outstandingAmount debt) in
  let total := fromDecimal128 (Debt.totalAmount debt) in
  if negb (equals outstanding total) then throw UnprocessableEntityError
  else
    let debt := Debt.set_status CANCELLED debt in
    await debt <- saveDebt debtId debt ;
    (* Customer.findById(debt.customerId); a null customer makes the next
       property read throw *)
    await customer <- findOrThrow (fun st => customers st !! Debt.customerId debt)
                   TypeError ;
    let currentDebtBalance := fromDecimal128 (Customer.debtBalance customer) in
    let newDebtBalance := subtract currentDebtBalance total in
    let customer := Customer.set_debtBalance (toDecimal128 newDebtBalance) customer in
    let customer := Customer.incrementVersion customer in
    exec saveCustomer (Debt.customerId debt) customer ;
    exec logAction
      (AuditLog.mk companyId userId DEBT_DELETE "Debt" debtId
         (AuditLog.DebtDeleted (Debt.reference debt) total)
         now) ;
    ret debt.

Definition cancelDebt (companyId debtId userId : nat) (now : Z) (st : Store)
    : Store * (AppError + Debt.t) :=
  runTransaction (cancelDebtBody companyId debtId userId now) st.

End DebtService.

(** ** services/customerService.js

    The two operations on an existing customer.  They run without a
    session: [customer.save()] writes at once.  Of the fields
    [updateCustomer] may set (name, contact, creditLimit, notes) the
    embedding has the credit limit. *)

Module CustomerService.

Record UpdateData := mkUpdateData {
  creditLimit : option Decimal;
}.

Definition updateCustomer (companyId customerId : nat) (updateData : UpdateData)
    (userId : nat) (now : Z) (st : Store) : Store * (AppError + Customer.t) :=
  match lookupCustomer st companyId customerId with
  | None => (st, inl NotFoundError)
  | Some customer =>
    let updates := toDecimal128 <$> creditLimit updateData in
    let customer :=
      match updates with
      | Some limit => Customer.set_creditLimit limit customer
      | None => customer
      end in
    let st := with_customers (<[customerId := customer]> (customers st)) st in
    let st :=
      with_auditLogs
        (auditLogs st ++
           [AuditLog.mk companyId userId CUSTOMER_UPDATE "Customer" customerId
              (AuditLog.CustomerUpdated updates) now]) st in
    (st, inr customer)
  end.

(** The soft delete: [customer.isActive = false]. *)
Definition deleteCustomer (companyId customerId userId : nat) (now : Z) (st : Store)
    : Store * (AppError + unit) :=
  match lookupCustomer st companyId customerId with
  | None => (st, inl NotFoundError)
  | Some customer =>
    let customer := Customer.set_isActive false customer in
    let st := with_customers (<[customerId := customer]> (customers st)) st in
    let st :=
      with_auditLogs
        (auditLogs st ++
           [AuditLog.mk companyId userId CUSTOMER_DELETE "Customer" customerId
              AuditLog.CustomerDeleted now]) st in
    (st, inr tt)
  end.

End CustomerService.

(** ** services/syncService.js *)

Module SyncService.

(** A key of the [data] object of a changeset together with its value.
    Modelled are the keys that are ledger fields of some schema; under the
    schemas' strict mode a key that is no path of the document's schema is
    not persisted. *)
Inductive Property :=
| Set_creditLimit (v : Decimal)
| Set_debtBalance (v : Decimal)
| Set_creditBalance (v : Decimal)
| Set_lastTransactionAt (v : Z)
| Set_version (v : Z)
| Set_isActive (v : bool)
| Set_totalAmount (v : Decimal)
| Set_outstandingAmount (v : Decimal)
| Set_status (v : DEBT_STATUS)
| Set_agingBucket (v : AGING_BUCKETS)
| Set_amount (v : Decimal)
| Set_method (v : PAYMENT_METHODS)
| Set_addedToCreditBalance (v : Decimal)
| Set_paidAt (v : Z).

(** [{ entity, entityId, version, data }]: [version] is the version the
    client holds. *)
Module Changeset.
Record t := mk {
  entity : string;
  entityId : nat;
  version : Z;
  data : list Property;
}.
End Changeset.

(** A document of one of the three models, and [document.toObject()]. *)
Inductive Document :=
| CustomerDoc (c : Customer.t)
| DebtDoc (d : Debt.t)
| PaymentDoc (p : Payment.t).

Inductive Reason :=
| DocumentNotFound
| VersionMismatch
| ErrorMessage (e : AppError).

Module Conflict.
Record t := mk {
  entityId : nat;
  entity : string;
  reason : Reason;
  serverVersion : option Z;
  clientVersion : option Z;
  serverData : option Document;
  error : bool;
}.
End Conflict.

Module Applied.
Record t := mk {
  entityId : nat;
  entity : string;
  newVersion : option Z;
}.
End Applied.

Record Results := mkResults {
  applied : list Applied.t;
  conflicts : list Conflict.t;
}.

(** The [switch (entity)] and [Model.findOne({ _id: entityId, companyId })]:
    an unknown entity throws. *)
Definition findOne (entity : string) (entityId companyId : nat) (st : Store)
    : AppError + option Document :=
  if String.eqb entity "Customer" then
    inr (CustomerDoc <$> lookupCustomer st companyId entityId)
  else if String.eqb entity "Debt" then
    inr (DebtDoc <$> lookupDebtOfCompany st companyId entityId)
  else if String.eqb entity "Payment" then
    inr (PaymentDoc <$>
           match payments st !! entityId with
           | Some p => if Nat.eqb (Payment.companyId p) companyId then Some p else None
           | None => None
           end)
  else inl ValidationError.

(** [document.version]: only the Customer schema has the path; on the
    other documents the property is [undefined]. *)
Definition documentVersion (document : Document) : option Z :=
  match document with
  | CustomerDoc c => Some (Customer.version c)
  | DebtDoc _ | PaymentDoc _ => None
  end.

Definition assignCustomer (c : Customer.t) (p : Property) : Customer.t :=
  match p with
  | Set_creditLimit v => Customer.set_creditLimit v c
  | Set_debtBalance v => Customer.set_debtBalance v c
  | Set_creditBalance v => Customer.set_creditBalance v c
  | Set_lastTransactionAt v => Customer.set_lastTransactionAt (Some v) c
  | Set_version v => Customer.set_version v c
  | Set_isActive v => Customer.set_isActive v c
  | _ => c
  end.

Definition assignDebt (d : Debt.t) (p : Property) : Debt.t :=
  match p with
  | Set_totalAmount v => Debt.set_totalAmount v d
  | Set_outstandingAmount v => Debt.set_outstandingAmount v d
  | Set_status v => Debt.set_status v d
  | Set_agingBucket v => Debt.set_agingBucket v d
  | _ => d
  end.

Definition assignPayment (p : Payment.t) (q : Property) : Payment.t :=
  match q with
  | Set_amount v => Payment.set_amount v p
  | Set_method v => Payment.set_method v p
  | Set_addedToCreditBalance v => Payment.set_addedToCreditBalance v p
  | Set_paidAt v => Payment.set_paidAt v p
  | _ => p
  end.

(** [Object.assign(document, data)]. *)
Definition objectAssign (document : Document) (data : list Property) : Document :=
  match document with
  | CustomerDoc c => CustomerDoc (fold_left assignCustomer data c)
  | DebtDoc d => DebtDoc (fold_left assignDebt data d)
  | PaymentDoc p => PaymentDoc (fold_left assignPayment data p)
  end.

(** [if (document.incrementVersion) document.incrementVersion()]: the
    method exists on customers only. *)
Definition incrementVersion (document : Document) : Document :=
  match document with
  | CustomerDoc c => CustomerDoc (Customer.incrementVersion c)
  | other => other
  end.

(** [document.version] read back for [newVersion]: on a document without
    the schema path it is the plain property left by [Object.assign]. *)
Definition versionAfter (document : Document) (data : list Property) : option Z :=
  match documentVersion document with
  | Some v => Some v
  | None =>
    fold_left (fun acc p => match p with Set_version v => Some v | _ => acc end) data None
  end.

(** [document.save()], outside any session. *)
Definition save (_id : nat) (document : Document) : Tx unit :=
  match document with
  | CustomerDoc c => saveCustomer _id c
  | DebtDoc d => exec saveDebt _id d ; ret tt
  | PaymentDoc p => savePayment _id p
  end.

Definition pushConflict (c : Conflict.t) (results : Results) : Results :=
  mkResults (applied results) (conflicts results ++ [c]).

Definition pushApplied (a : Applied.t) (results : Results) : Results :=
  mkResults (applied results ++ [a]) (conflicts results).

(** [document.version !== undefined && document.version !== version]. *)
Definition versionConflict (document : Document) (version : Z) : bool :=
  match documentVersion document with
  | Some v => negb (v =? version)
  | None => false
  end.

(** One iteration of the [for (const changeset of changesets)] loop, with
    its [try]/[catch]. *)
Definition processChangeset (companyId : nat) (changeset : Changeset.t)
    (acc : Store * Results) : Store * Results :=
  let '(st, results) := acc in
  let entity := Changeset.entity changeset in
  let entityId := Changeset.entityId changeset in
  let version := Changeset.version changeset in
  let data := Changeset.data changeset in
  let caught (e : AppError) :=
    (st, pushConflict
           (Conflict.mk entityId entity (ErrorMessage e) None None None true)
           results) in
  match findOne entity entityId companyId st with
  | inl e => caught e
  | inr None =>
    (st, pushConflict
           (Conflict.mk entityId entity DocumentNotFound None (Some version) None false)
           results)
  | inr (Some document) =>
    if versionConflict document version then
      (st, pushConflict
             (Conflict.mk entityId entity VersionMismatch
                (documentVersion document) (Some version) (Some document) false)
             results)
    else
      let document := objectAssign document data in
      let document := incrementVersion document in
      match save entityId document st with
      | inl e => caught e
      | inr (_, st') =>
        (st', pushApplied
                (Applied.mk entityId entity (versionAfter document data)) results)
      end
  end.

Definition pushChanges (companyId : nat) (changesets : list Changeset.t)
    (userId : nat) (st : Store) : Store * (AppError + Results) :=
  match changesets with
  | [] => (st, inl ValidationError)
  | _ :: _ =>
    let '(st', results) :=
      fold_left (fun acc changeset => processChangeset companyId changeset acc)
                changesets (st, mkResults [] []) in
    (st', inr results)
  end.

(** One element of [changes]: the audit entry without tenant and actor. *)
Module Change.
Record t := mk {
  entity : string;
  entityId : nat;
  action : AUDIT_ACTIONS;
  timestamp : Z;
  payload : AuditLog.Payload;
}.
End Change.

Record ChangesPage := mkChangesPage {
  since : Z;
  changes : list Change.t;
  hasMore : bool;
  lastTimestamp : Z;
}.

(** [.sort({ timestamp: 1 })]: ascending by timestamp (entries with equal
    timestamps keep their order of insertion). *)
Fixpoint insertByTimestamp (log : AuditLog.t) (sorted : list AuditLog.t)
    : list AuditLog.t :=
  match sorted with
  | [] => [log]
  | first :: rest =>
    if AuditLog.timestamp log <? AuditLog.timestamp first
    then log :: first :: rest
    else first :: insertByTimestamp log rest
  end.

Definition sortByTimestamp (logs : list AuditLog.t) : list AuditLog.t :=
  fold_right insertByTimestamp [] logs.

(** [.limit(limit)]: a limit of 0 is no limit. *)
Definition limitTo {A : Type} (limit : nat) (l : list A) : list A :=
  match limit with
  | O => l
  | S _ => take limit l
  end.

(** [getChanges]: [since] is the instant that [new Date(since)] denotes,
    [None] when the argument is missing or is no date; [limit] is the
    argument, 100 when the caller passes none. *)
Definition getChanges (companyId : nat) (since : option Z) (limit : nat) (st : Store)
    : AppError + ChangesPage :=
  match since with
  | None => inl ValidationError
  | Some sinceDate =>
    let auditLogs :=
      limitTo limit
        (sortByTimestamp
           (List.filter
              (fun log : AuditLog.t =>
                 Nat.eqb (AuditLog.companyId log) companyId
                 && (sinceDate <? AuditLog.timestamp log))
              (auditLogs st))) in
    let changes :=
      map (fun log : AuditLog.t =>
             Change.mk (AuditLog.entity log) (AuditLog.entityId log)
               (AuditLog.action log) (AuditLog.timestamp log) (AuditLog.payload log))
          auditLogs in
    inr (mkChangesPage sinceDate changes
           (limit <=? length changes)%nat
           match last changes with
           | Some change => Change.timestamp change
           | None => sinceDate
           end)
  end.

End SyncService.

(** ** Debt.updateAgingBuckets (models/Debt.js, run by jobs/agingUpdateJob.js) *)

Module AgingJob.

(** The [bulkWrite] of the job: every open or partial debt (of the company,
    when one is given) whose bucket changed gets the new bucket. *)
Definition updateAgingBuckets (companyId : option nat) (now : Z) (st : Store) : Store :=
  with_debts
    ((fun debt : Debt.t =>
        let selected :=
          (DEBT_STATUS_eqb (Debt.status debt) OPEN
           || DEBT_STATUS_eqb (Debt.status debt) PARTIAL)
          && match companyId with
             | Some c => Nat.eqb (Debt.companyId debt) c
             | None => true
             end in
        let newBucket := Debt.calculateAgingBucket now debt in
        if selected && negb (AGING_BUCKETS_eqb (Debt.agingBucket debt) newBucket)
        then Debt.set_agingBucket newBucket debt
        else debt) <$> debts st)
    st.

(** The query of the job: open or partial, and of the company when one is
    given. *)
Definition selected (companyId : option nat) (debt : Debt.t) : bool :=
  (DEBT_STATUS_eqb (Debt.status debt) OPEN
   || DEBT_STATUS_eqb (Debt.status debt) PARTIAL)
  && match companyId with
     | Some c => Nat.eqb (Debt.companyId debt) c
     | None => true
     end.

(** The [bulkOps] array: one [updateOne] per selected debt whose stored
    bucket differs from the recomputed one. *)
Definition bulkOps (companyId : option nat) (now : Z) (st : Store)
    : list (nat * AGING_BUCKETS) :=
  omap (fun entry : nat * Debt.t =>
          let newBucket := Debt.calculateAgingBucket now (snd entry) in
          if selected companyId (snd entry)
             && negb (AGING_BUCKETS_eqb (Debt.agingBucket (snd entry)) newBucket)
          then Some (fst entry, newBucket)
          else None)
       (map_to_list (debts st)).

(** [this.bulkWrite(bulkOps)]: each operation sets the bucket of the debt
    with the given [_id]. *)
Definition bulkWrite (ops : list (nat * AGING_BUCKETS)) (st : Store) : Store :=
  fold_left
    (fun (st : Store) (op : nat * AGING_BUCKETS) =>
       with_debts (alter (Debt.set_agingBucket (snd op)) (fst op) (debts st)) st)
    ops st.

(** [modifiedCount] of the result: the number of operations written, 0
    when there is none. *)
Definition modifiedCount (companyId : option nat) (now : Z) (st : Store) : nat :=
  length (bulkOps companyId now st).

End AgingJob.

(** ** POST /api/v1/payments

    The route of [api/routes/paymentRoutes.js] from the idempotency
    middleware on: [idempotency], [validate(createPaymentSchema)],
    [authorize], the controller and the global error handler. *)

Module Idempotency.

Inductive USER_ROLES := ADMIN | ACCOUNTANT | CASHIER | VIEWER.

(** The JSON body of a response: the created payment, or the error object
    written by the error handler. *)
Inductive Body :=
| PaymentCreated (_id : nat) (payment : Payment.t)
| Failure (e : AppError).

Record Response := mkResponse {
  status : Z;
  body : Body;
}.

Record Request := mkRequest {
  idempotencyKeyHeader : option string;   (* req.headers['idempotency-key'] *)
  companyId : nat;
  userId : nat;
  role : USER_ROLES;
  customerId : nat;                       (* req.body *)
  amount : Decimal;
  method : PAYMENT_METHODS;
  appliedToDebts : list Payment.AppliedDebt.t;
  paidAt : option Z;
}.

(** Redis: a key holds a value until its expiry time (milliseconds). *)
Record World := mkWorld {
  db : Store;
  redis : gmap string (Z * Response);
}.

Definition redisGet (key : string) (now : Z) (r : gmap string (Z * Response))
    : option Response :=
  match r !! key with
  | Some (expiresAt, value) => if now <? expiresAt then Some value else None
  | None => None
  end.

Definition redisSetex (key : string) (seconds : Z) (value : Response) (now : Z)
    (r : gmap string (Z * Response)) : gmap string (Z * Response) :=
  <[key := (now + seconds * 1000, value)]> r.

Definition isHexDigit (c : ascii) : bool :=
  let n := nat_of_ascii c in
  ((48 <=? n) && (n <=? 57) || (65 <=? n) && (n <=? 70)
   || (97 <=? n) && (n <=? 102))%nat.

(** [[0-9a-f]{n}] at the head of the string; the rest is returned. *)
Fixpoint hexRun (n : nat) (s : string) : option string :=
  match n with
  | O => Some s
  | S n' =>
    match s with
    | String c rest => if isHexDigit c then hexRun n' rest else None
    | EmptyString => None
    end
  end.

Definition hyphen (s : string) : option string :=
  match s with
  | String c rest => if Ascii.eqb c "-" then Some rest else None
  | EmptyString => None
  end.

(** [/^[0-9a-f]{8}-[0-9a-f]{4}-[0-9a-f]{4}-[0-9a-f]{4}-[0-9a-f]{12}$/i]. *)
Definition isValidIdempotencyKey (key : string) : bool :=
  match (s ← hexRun 8 key; s ← hyphen s; s ← hexRun 4 s; s ← hyphen s;
         s ← hexRun 4 s; s ← hyphen s; s ← hexRun 4 s; s ← hyphen s;
         hexRun 12 s) with
  | Some EmptyString => true
  | _ => false
  end.

(** [statusCode] of an error as the error handler sends it. *)
Definition statusCode (e : AppError) : Z :=
  match e with
  | ValidationError => 400
  | NotFoundError => 404
  | ConflictError => 409
  | UnprocessableEntityError => 422
  | ForbiddenError => 403
  | DuplicateKeyError => 409
  | MongooseValidationError => 400
  | HookError => 500
  | TypeError => 500
  end.

Definition errorHandler (e : AppError) : Response := mkResponse (statusCode e) (Failure e).

(** [createPaymentSchema]: the amounts are positive numbers. *)
Definition createPaymentSchema (req : Request) : bool :=
  (0 <? amount req)
  && forallb (fun app => 0 <? Payment.AppliedDebt.amount app) (appliedToDebts req).

(** [authorize(ADMIN, ACCOUNTANT, CASHIER)]. *)
Definition authorize (req : Request) : bool :=
  match role req with
  | ADMIN | ACCOUNTANT | CASHIER => true
  | VIEWER => false
  end.

(** The handlers after the middleware: validation, authorization and
    [paymentController.createPayment]. *)
Definition next (req : Request) (idempotencyKey : string) (now : Z) (st : Store)
    : Store * Response :=
  if negb (createPaymentSchema req) then (st, errorHandler ValidationError)
  else if negb (authorize req) then (st, errorHandler ForbiddenError)
  else
    let paymentData :=
      PaymentService.mkPaymentData (amount req) (method req) (appliedToDebts req)
        (paidAt req) (Some idempotencyKey) in
    match PaymentService.createPayment (companyId req) (customerId req)
            paymentData (userId req) now st with
    | (st', inr (_id, payment)) => (st', mkResponse 201 (PaymentCreated _id payment))
    | (st', inl e) => (st', errorHandler e)
    end.

(** [idempotency]: [setexOk] tells whether the [redis.setex] of this
    request succeeds (a failure is logged and swallowed). *)
Definition idempotency (req : Request) (now : Z) (setexOk : bool) (w : World)
    : World * Response :=
  match idempotencyKeyHeader req with
  | None => (w, errorHandler ValidationError)
  | Some idempotencyKey =>
    if negb (isValidIdempotencyKey idempotencyKey)
    then (w, errorHandler ValidationError)
    else
      let redisKey := (IDEMPOTENCY_KEY_PREFIX ++ idempotencyKey)%string in
      match redisGet redisKey now (redis w) with
      | Some cached => (w, mkResponse (status cached) (body cached))
      | None =>
        let '(st', response) := next req idempotencyKey now (db w) in
        let cache :=
          if (200 <=? status response) && (status response <? 300) && setexOk
          then redisSetex redisKey IDEMPOTENCY_TTL_SECONDS response now (redis w)
          else redis w in
        (mkWorld st' cache, response)
      end
  end.

End Idempotency.

(** ** Sample ledgers

    Small databases on which the operations are run: one company (1), one
    user (7), amounts in whole currency units. *)

Module Sample.

Definition units (n : Z) : Decimal := n * currencyUnit.

Definition goods (price : Z) : Debt.Item :=
  Debt.mkItem "goods" 1 (units price) (units price).

(** A customer with a limit of 1000 who owes 500 on one open invoice. *)
Definition customer : Customer.t :=
  Customer.mk 1 (units 1000) (units 500) 0 None 4 true.

Definition invoice : Debt.t :=
  Debt.mk 1 1 "INV-1" (units 500) (units 500) OPEN CURRENT 0 [goods 500].

Definition ledger : Store :=
  mkStore {[1%nat := customer]} {[10%nat := invoice]} ∅ [].



(** 500 paid, 300 of it on the invoice. *)
Definition splitPayment : PaymentService.PaymentData :=
  PaymentService.mkPaymentData (units 500) CASH
    [Payment.AppliedDebt.mk 10 (units 300)] None None.

(** More applied than paid. *)
Definition shortPayment : PaymentService.PaymentData :=
  PaymentService.mkPaymentData (units 100) CASH
    [Payment.AppliedDebt.mk 10 (units 300)] None None.

(** The credit-limit example of the specification: limit 1000, balance
    900, requests for 100 and for 150. *)
Definition nearLimitCustomer : Customer.t :=
  Customer.mk 1 (units 1000) (units 900) 0 None 4 true.

Definition nearLimitLedger : Store :=
  mkStore {[1%nat := nearLimitCustomer]}
          {[10%nat := Debt.mk 1 1 "INV-1" (units 900) (units 900) OPEN CURRENT 0 [goods 900]]}
          ∅ [].

Definition debtOf (total : Z) : DebtService.DebtData :=
  DebtService.mkDebtData (Some 1%nat) "INV-2" (units total) (Some 0) [goods total].

(** The sample ledger after the soft delete of its customer. *)
Definition inactiveLedger : Store := fst (CustomerService.deleteCustomer 1 1 7 0 ledger).

(** The sample ledger after two cancellations of its invoice in a row. *)
Definition cancelledOnce : Store := fst (DebtService.cancelDebt 1 10 7 0 ledger).
Definition cancelledTwice : Store := fst (DebtService.cancelDebt 1 10 7 0 cancelledOnce).

(** A cash payment of 300 recorded on the sample ledger, and the push of
    a changeset that rewrites its method. *)
Definition receipt : Payment.t :=
  Payment.mk 1 1 (units 300) CASH [Payment.AppliedDebt.mk 10 (units 300)] 0 None 0 7.

Definition ledgerWithReceipt : Store :=
  mkStore {[1%nat := customer]} {[10%nat := invoice]} {[20%nat := receipt]} [].

Definition rewriteReceipt : SyncService.Changeset.t :=
  SyncService.Changeset.mk "Payment" 20 0 [SyncService.Set_method CARD].

(** The version conflict of the specification: the client holds version 3
    of the customer, the server is at version 4. *)
Definition staleCustomerChange : SyncService.Changeset.t :=
  SyncService.Changeset.mk "Customer" 1 3 [SyncService.Set_creditLimit (units 5000)].

(** Two submissions under one idempotency key: the first names a customer
    that does not exist, the second pays 100 on the invoice. *)
Definition key : string := "550e8400-e29b-41d4-a716-446655440000".

Definition firstSubmission : Idempotency.Request :=
  Idempotency.mkRequest (Some key) 1 7 Idempotency.CASHIER
    2 (units 100) CASH [] None.

Definition secondSubmission : Idempotency.Request :=
  Idempotency.mkRequest (Some key) 1 7 Idempotency.CASHIER
    1 (units 100) CASH [Payment.AppliedDebt.mk 10 (units 100)] None.

Definition world : Idempotency.World := Idempotency.mkWorld ledger ∅.

(** The sample ledger shared with a customer of a second company. *)
Definition otherCustomer : Customer.t :=
  Customer.mk 2 (units 1000) 0 0 None 0 true.

Definition sharedLedger : Store :=
  mkStore {[1%nat := customer; 2%nat := otherCustomer]} {[10%nat := invoice]} ∅ [].

(** A payment of 100 on the invoice under the key, and the sample ledger
    after it. *)
Definition keyedPayment : PaymentService.PaymentData :=
  PaymentService.mkPaymentData (units 100) CASH
    [Payment.AppliedDebt.mk 10 (units 100)] None (Some key).

Definition paidLedger : Store :=
  fst (PaymentService.createPayment 1 1 keyedPayment 7 0 ledger).

End Sample.

(** ** Predicates used by the properties *)

(** Every debt of [st0] is still in [st], in the same company and for the
    same customer, and its outstanding amount has not grown: the relation
    between the database at the start of a payment and the working copy
    inside the loop. *)
Definition debtsShrink (st0 st : Store) : Prop :=
  forall (debtId : nat) (d0 : Debt.t),
    debts st0 !! debtId = Some d0 ->
    exists d : Debt.t,
      debts st !! debtId = Some d /\
      Debt.companyId d = Debt.companyId d0 /\
      Debt.customerId d = Debt.customerId d0 /\
      Debt.outstandingAmount d <= Debt.outstandingAmount d0.



(** The request holds a debt that passes the validators of the Debt
    schema: [Debt.validateSync] read on the request. *)
Definition schemaValid (debtData : DebtService.DebtData) : bool :=
  negb (String.eqb (DebtService.reference debtData) EmptyString) &&
  (String.length (DebtService.reference debtData) <=? 100)%nat &&
  match DebtService.items debtData with [] => false | _ :: _ => true end &&
  forallb Debt.itemValid (DebtService.items debtData).

(** The ledger invariant of a customer: [debtBalance] is the sum of the
    outstanding amounts of the customer's debts that are not cancelled. *)
Definition countsTowardsBalance (customerId : nat) (d : Debt.t) : bool :=
  Nat.eqb (Debt.customerId d) customerId
  && negb (DEBT_STATUS_eqb (Debt.status d) CANCELLED).

(** What one debt adds to the balance of a customer. *)
Definition contribution (customerId : nat) (d : Debt.t) : Decimal :=
  if countsTowardsBalance customerId d then Debt.outstandingAmount d else 0.

Definition outstandingOf (customerId : nat) (ds : gmap nat Debt.t) : Decimal :=
  map_fold (fun (_ : nat) (d : Debt.t) (acc : Decimal) => acc + contribution customerId d)
    0 ds.


Definition balanceInvariant (st : Store) : Prop :=
  forall (customerId : nat) (c : Customer.t),
    customers st !! customerId = Some c ->
    Customer.debtBalance c = outstandingOf customerId (debts st).

(** The same, decided customer by customer. *)
Definition balanceInvariantb (st : Store) : bool :=
  forallb
    (fun entry : nat * Customer.t =>
       Customer.debtBalance (snd entry) =? outstandingOf (fst entry) (debts st))
    (map_to_list (customers st)).

(** A transaction body that, when it returns, has left the payments
    collection as it found it. *)
Definition keepsPayments {A : Type} (body : Tx A) : Prop :=
  forall (st st' : Store) (a : A), body st = inr (a, st') -> payments st' = payments st.

(** The loop of [pushChanges] from an accumulator. *)
Definition processChangesets (companyId : nat) (changesets : list SyncService.Changeset.t)
    (acc : Store * SyncService.Results) : Store * SyncService.Results :=
  fold_left (fun acc changeset => SyncService.processChangeset companyId changeset acc)
            changesets acc.

(** The conflict entry reported for a version mismatch. *)
Definition versionMismatch (changeset : SyncService.Changeset.t)
    (serverVersion : Z) (document : SyncService.Document) : SyncService.Conflict.t :=
  SyncService.Conflict.mk
    (SyncService.Changeset.entityId changeset)
    (SyncService.Changeset.entity changeset)
    SyncService.VersionMismatch
    (Some serverVersion)
    (Some (SyncService.Changeset.version changeset))
    (Some document)
    false.

(** The aging buckets in the order of growing delay. *)
Definition bucketRank (bucket : AGING_BUCKETS) : Z :=
  match bucket with
  | CURRENT => 0
  | DAYS_0_30 => 1
  | DAYS_31_60 => 2
  | DAYS_61_90 => 3
  | DAYS_90_PLUS => 4
  end.

(** The invariant of a debt record: the outstanding amount lies between 0
    and the total, and the status is the one the state machine gives. *)
Definition debtSettled (d : Debt.t) : Prop :=
  0 <= Debt.outstandingAmount d <= Debt.totalAmount d /\ Debt.updateStatus d = d.

Definition debtsSettled (st : Store) : Prop :=
  forall (debtId : nat) (d : Debt.t), debts st !! debtId = Some d -> debtSettled d.

(** No two payments hold the same idempotency key. *)
Definition keysUnique (st : Store) : Prop :=
  forall (i j : nat) (p q : Payment.t) (k : string),
    payments st !! i = Some p -> payments st !! j = Some q ->
    Payment.idempotencyKey p = Some k -> Payment.idempotencyKey q = Some k ->
    i = j.

(** Some payment holds the key. *)
Definition keyHeld (k : string) (st : Store) : Prop :=
  exists (i : nat) (p : Payment.t),
    payments st !! i = Some p /\ Payment.idempotencyKey p = Some k.

(** The documents of every other company are in [st'] what they are in
    [st]. *)
Definition sameOutside (companyId : nat) (st st' : Store) : Prop :=
  (forall (id : nat) (c : Customer.t),
     customers st !! id = Some c -> Customer.companyId c <> companyId ->
     customers st' !! id = Some c) /\
  (forall (id : nat) (d : Debt.t),
     debts st !! id = Some d -> Debt.companyId d <> companyId ->
     debts st' !! id = Some d) /\
  (forall (id : nat) (p : Payment.t),
     payments st !! id = Some p -> Payment.companyId p <> companyId ->
     payments st' !! id = Some p).

(** Ascending timestamps. *)
Fixpoint ascending (timestamps : list Z) : Prop :=
  match timestamps with
  | [] => True
  | t :: rest => (forall t', In t' rest -> t <= t') /\ ascending rest
  end.

(** The shape the key pattern describes, in words: five groups of 8, 4,
    4, 4 and 12 hexadecimal digits (of either case) joined by hyphens. *)
Fixpoint hexDigits (s : string) : bool :=
  match s with
  | EmptyString => true
  | String c rest => Idempotency.isHexDigit c && hexDigits rest
  end.

Definition hexGroup (n : nat) (s : string) : Prop :=
  String.length s = n /\ hexDigits s = true.

Definition uuidShaped (key : string) : Prop :=
  exists a b c d e : string,
    key = (a ++ "-" ++ b ++ "-" ++ c ++ "-" ++ d ++ "-" ++ e)%string /\
    hexGroup 8 a /\ hexGroup 4 b /\ hexGroup 4 c /\ hexGroup 4 d /\ hexGroup 12 e.


(** The element of [changes] made from an audit entry. *)
Definition changeOf (log : AuditLog.t) : SyncService.Change.t :=
  SyncService.Change.mk (AuditLog.entity log) (AuditLog.entityId log)
    (AuditLog.action log) (AuditLog.timestamp log) (AuditLog.payload log).


(** A debt as one run of the aging job leaves it. *)
Definition refreshed (companyId : option nat) (now : Z) (debt : Debt.t) : Debt.t :=
  if AgingJob.selected companyId debt
     && negb (AGING_BUCKETS_eqb (Debt.agingBucket debt)
                (Debt.calculateAgingBucket now debt))
  then Debt.set_agingBucket (Debt.calculateAgingBucket now debt) debt
  else debt.

(** The changeset does not assign the [version] key. *)
Definition leavesVersion (data : list SyncService.Property) : Prop :=
  forall v : Z, ~ In (SyncService.Set_version v) data.

(** * Properties *)

(** ** Constants and decimals *)

Lemma DEBT_STATUS_eqb_eq (a b : DEBT_STATUS) : DEBT_STATUS_eqb a b = true <-> a = b.
Proof. destruct a, b; simpl; split; congruence. Qed.

Lemma DEBT_STATUS_eqb_neq (a b : DEBT_STATUS) : DEBT_STATUS_eqb a b = false <-> a <> b.
Proof. destruct a, b; simpl; split; congruence. Qed.

Lemma DEBT_STATUS_eqb_refl (a : DEBT_STATUS) : DEBT_STATUS_eqb a a = true.
Proof. now destruct a. Qed.

(** ** The status state machine of a debt *)

Section UpdateStatus.

Variable d : Debt.t.

Let outstanding := Debt.outstandingAmount d.
Let total := Debt.totalAmount d.





End UpdateStatus.

(** [updateStatus] touches the status only. *)
Lemma updateStatus_fields (d : Debt.t) :
  Debt.companyId (Debt.updateStatus d) = Debt.companyId d /\
  Debt.customerId (Debt.updateStatus d) = Debt.customerId d /\
  Debt.totalAmount (Debt.updateStatus d) = Debt.totalAmount d /\
  Debt.outstandingAmount (Debt.updateStatus d) = Debt.outstandingAmount d.
Proof.
  unfold Debt.updateStatus.
  destruct (DEBT_STATUS_eqb _ _); [easy|].
  destruct (_ =? 0); [easy|]. destruct (_ <? _); easy.
Qed.



(** ** Aging classification *)

Lemma daysOverdue_bounds (now : Z) (d : Debt.t) :
  Debt.daysOverdue now d * Debt.msPerDay <= now - Debt.dueAt d
  < (Debt.daysOverdue now d + 1) * Debt.msPerDay.
Proof.
  unfold Debt.daysOverdue.
  assert (0 < Debt.msPerDay) by (unfold Debt.msPerDay; lia).
  pose proof (Z.mul_div_le (now - Debt.dueAt d) Debt.msPerDay H).
  pose proof (Z.mul_succ_div_gt (now - Debt.dueAt d) Debt.msPerDay H).
  lia.
Qed.



(** ** The payment loop *)

Lemma totalAppliedOf_from (applied : list Payment.AppliedDebt.t) (start : Z) :
  fold_left (fun sum a => sum + Payment.AppliedDebt.amount a) applied start
  = start + Payment.totalAppliedOf applied.
Proof.
  unfold Payment.totalAppliedOf. revert start.
  induction applied as [|a applied IH]; intros start; simpl.
  - lia.
  - rewrite IH, (IH (0 + _)). lia.
Qed.

Lemma totalAppliedOf_cons (a : Payment.AppliedDebt.t) (applied : list Payment.AppliedDebt.t) :
  Payment.totalAppliedOf (a :: applied)
  = Payment.AppliedDebt.amount a + Payment.totalAppliedOf applied.
Proof. unfold Payment.totalAppliedOf at 1. simpl. now rewrite totalAppliedOf_from. Qed.

(** The snapshot stored in the payment carries the amounts of the request. *)
Lemma totalAppliedOf_snapshot (applied : list Payment.AppliedDebt.t) :
  Payment.totalAppliedOf
    (map (fun app => Payment.AppliedDebt.mk (Payment.AppliedDebt.debtId app)
                       (toDecimal128 (Payment.AppliedDebt.amount app))) applied)
  = Payment.totalAppliedOf applied.
Proof.
  induction applied as [|a applied IH]; [reflexivity|].
  simpl map. rewrite !totalAppliedOf_cons, IH. reflexivity.
Qed.

Lemma debtsShrink_refl (st : Store) : debtsShrink st st.
Proof. intros id d0 H. exists d0. repeat split; [assumption | lia]. Qed.

Lemma lookupDebt_Some (st : Store) (companyId customerId debtId : nat) (d : Debt.t) :
  lookupDebt st companyId customerId debtId = Some d ->
  debts st !! debtId = Some d /\
  Debt.companyId d = companyId /\ Debt.customerId d = customerId.
Proof.
  unfold lookupDebt. destruct (debts st !! debtId) as [d'|]; [|discriminate].
  destruct (Nat.eqb_spec (Debt.companyId d') companyId);
    destruct (Nat.eqb_spec (Debt.customerId d') customerId); simpl; try discriminate.
  intros [= ->]. auto.
Qed.


(** Writing a debt back with a smaller outstanding amount keeps the
    relation. *)
Lemma debtsShrink_save (st0 st : Store) (debtId : nat) (d d' : Debt.t) :
  debtsShrink st0 st ->
  debts st !! debtId = Some d ->
  Debt.companyId d' = Debt.companyId d ->
  Debt.customerId d' = Debt.customerId d ->
  Debt.outstandingAmount d' <= Debt.outstandingAmount d ->
  debtsShrink st0 (with_debts (<[debtId := d']> (debts st)) st).
Proof.
  intros Hrel Hd Hc Hk Ho id d0 H0. simpl.
  destruct (Hrel _ _ H0) as (d1 & E1 & Hc1 & Hk1 & Ho1).
  destruct (decide (debtId = id)) as [->|Hne].
  - rewrite lookup_insert_eq. exists d'.
    assert (d1 = d) by congruence. subst d1.
    repeat split; [congruence | congruence | lia].
  - rewrite lookup_insert_ne by assumption. exists d1. auto.
Qed.

Lemma preValidate_fields (d : Debt.t) :
  Debt.companyId (Debt.preValidate d) = Debt.companyId d /\
  Debt.customerId (Debt.preValidate d) = Debt.customerId d /\
  Debt.totalAmount (Debt.preValidate d) = Debt.totalAmount d /\
  Debt.outstandingAmount (Debt.preValidate d) = Debt.outstandingAmount d /\
  Debt.status (Debt.preValidate d) = Debt.status d.
Proof. repeat split. Qed.

(** One unfolding of the loop. *)
Lemma applyToDebts_cons (companyId customerId : nat)
    (application : Payment.AppliedDebt.t) (rest : list Payment.AppliedDebt.t)
    (totalApplied : Decimal) (debtUpdates : list AuditLog.DebtUpdate) (st : Store) :
  PaymentService.applyToDebts companyId customerId (application :: rest)
    totalApplied debtUpdates st
  = if negb (isPositive (Payment.AppliedDebt.amount application)) then inl ValidationError
    else match lookupDebt st companyId customerId
                 (Payment.AppliedDebt.debtId application) with
         | None => inl NotFoundError
         | Some debt =>
           if isGreaterThan (Payment.AppliedDebt.amount application)
                (Debt.outstandingAmount debt)
           then inl ValidationError
           else
             let newOutstanding :=
               Debt.outstandingAmount debt - Payment.AppliedDebt.amount application in
             let saved :=
               Debt.preValidate
                 (Debt.updateStatus (Debt.set_outstandingAmount newOutstanding debt)) in
             PaymentService.applyToDebts companyId customerId rest
               (totalApplied + Payment.AppliedDebt.amount application)
               (debtUpdates ++
                  [AuditLog.mkDebtUpdate (Payment.AppliedDebt.debtId application)
                     (Debt.reference saved) (Debt.outstandingAmount debt)
                     newOutstanding (Debt.status saved)])
               (with_debts
                  (<[Payment.AppliedDebt.debtId application := saved]> (debts st)) st)
         end.
Proof.
  simpl. unfold fromDecimal128.
  destruct (negb _); [reflexivity|].
  unfold bind, findOrThrow.
  destruct (lookupDebt _ _ _ _) as [debt|]; [|reflexivity].
  destruct (isGreaterThan _ _); reflexivity.
Qed.

Lemma applyToDebts_nil (companyId customerId : nat)
    (totalApplied : Decimal) (debtUpdates : list AuditLog.DebtUpdate) (st : Store) :
  PaymentService.applyToDebts companyId customerId [] totalApplied debtUpdates st
  = inr ((totalApplied, debtUpdates), st).
Proof. reflexivity. Qed.

Global Opaque PaymentService.applyToDebts.

Lemma isPositive_true (v : Z) : negb (isPositive v) = false -> 0 <= v.
Proof.
  unfold isPositive, fromDecimal128. destruct (Z.leb_spec 0 v); simpl; [trivial | discriminate].
Qed.

Lemma isGreaterThan_false (a b : Z) : isGreaterThan a b = false -> a <= b.
Proof. unfold isGreaterThan, fromDecimal128. destruct (Z.ltb_spec b a); [discriminate | trivial]. Qed.



(** The debt written back by one iteration: only the outstanding amount
    and the status differ from the debt that was read. *)
Lemma saved_debt_fields (debt : Debt.t) (newOutstanding : Decimal) :
  let saved :=
    Debt.preValidate (Debt.updateStatus (Debt.set_outstandingAmount newOutstanding debt)) in
  Debt.companyId saved = Debt.companyId debt /\
  Debt.customerId saved = Debt.customerId debt /\
  Debt.totalAmount saved = Debt.totalAmount debt /\
  Debt.outstandingAmount saved = newOutstanding.
Proof.
  cbv zeta.
  destruct (preValidate_fields
              (Debt.updateStatus (Debt.set_outstandingAmount newOutstanding debt)))
    as (-> & -> & -> & -> & _).
  destruct (updateStatus_fields (Debt.set_outstandingAmount newOutstanding debt))
    as (-> & -> & -> & ->).
  repeat split.
Qed.

(** One iteration keeps [debtsShrink] when the applied amount is not
    negative. *)
Lemma debtsShrink_step (st0 st : Store) (debtId : nat) (debt : Debt.t) (applied : Decimal) :
  debtsShrink st0 st ->
  debts st !! debtId = Some debt ->
  0 <= applied ->
  debtsShrink st0
    (with_debts
       (<[debtId :=
            Debt.preValidate
              (Debt.updateStatus
                 (Debt.set_outstandingAmount (Debt.outstandingAmount debt - applied) debt))]>
          (debts st)) st).
Proof.
  intros Hrel Hd Hpos.
  destruct (saved_debt_fields debt (Debt.outstandingAmount debt - applied))
    as (Hc & Hk & _ & Ho).
  apply debtsShrink_save with (d := debt); try assumption. lia.
Qed.

Lemma debtsShrink_trans (st0 st1 st2 : Store) :
  debtsShrink st0 st1 -> debtsShrink st1 st2 -> debtsShrink st0 st2.
Proof.
  intros H01 H12 id d0 H0.
  destruct (H01 _ _ H0) as (d1 & E1 & Hc1 & Hk1 & Ho1).
  destruct (H12 _ _ E1) as (d2 & E2 & Hc2 & Hk2 & Ho2).
  exists d2. repeat split; [assumption | congruence | congruence | lia].
Qed.

(** A completed loop has added every applied amount to [totalApplied],
    has written debts only, and has only lowered outstanding amounts. *)
Lemma applyToDebts_success (companyId customerId : nat)
    (applications : list Payment.AppliedDebt.t) :
  forall (totalApplied : Decimal) (debtUpdates : list AuditLog.DebtUpdate)
         (st st' : Store) (r : Decimal * list AuditLog.DebtUpdate),
    PaymentService.applyToDebts companyId customerId applications
      totalApplied debtUpdates st = inr (r, st') ->
    fst r = totalApplied + Payment.totalAppliedOf applications /\
    customers st' = customers st /\
    payments st' = payments st /\
    auditLogs st' = auditLogs st /\
    debtsShrink st st'.
Proof.
  induction applications as [|a rest IH]; intros tot ups st st' r.
  - rewrite applyToDebts_nil. intros [= <- <-]. simpl.
    unfold Payment.totalAppliedOf. simpl. repeat split; try lia.
    apply debtsShrink_refl.
  - rewrite applyToDebts_cons.
    destruct (negb _) eqn:Hpos; [discriminate|].
    destruct (lookupDebt _ _ _ _) as [debt|] eqn:Hfind; [|discriminate].
    destruct (isGreaterThan _ _) eqn:Hgt; [discriminate|].
    cbv zeta. intros Hrest.
    destruct (IH _ _ _ _ _ Hrest) as (Hsum & Hc & Hp & Ha & Hrel).
    simpl in Hc, Hp, Ha.
    rewrite totalAppliedOf_cons.
    repeat split; [lia | assumption | assumption | assumption |].
    apply isPositive_true in Hpos.
    apply lookupDebt_Some in Hfind. destruct Hfind as (Hd & _ & _).
    eapply debtsShrink_trans; [|exact Hrel].
    apply debtsShrink_step; [apply debtsShrink_refl | assumption | assumption].
Qed.



(** ** createPayment *)

Lemma runTransaction_abort {A : Type} (body : Tx A) (st st' : Store) (err : AppError) :
  runTransaction body st = (st', inl err) -> st' = st /\ body st = inl err.
Proof.
  unfold runTransaction. destruct (body st) as [e | [a st1]]; intros [= <- <-]; auto.
Qed.

Lemma runTransaction_commit {A : Type} (body : Tx A) (st st' : Store) (a : A) :
  runTransaction body st = (st', inr a) -> body st = inr (a, st').
Proof.
  unfold runTransaction. destruct (body st) as [e | [a1 st1]]; intros [= <- <-]; auto.
Qed.

(** The ObjectId of a new document is not in the collection. *)
Lemma nextObjectId_fresh {A : Type} (collection : gmap nat A) :
  collection !! nextObjectId collection = None.
Proof. apply not_elem_of_dom. unfold nextObjectId. apply is_fresh. Qed.

(** A failed payment leaves the database as it was. *)
Lemma createPayment_abort (companyId customerId : nat)
    (paymentData : PaymentService.PaymentData) (userId : nat) (now : Z)
    (st st' : Store) (err : AppError) :
  PaymentService.createPayment companyId customerId paymentData userId now st
  = (st', inl err) ->
  st' = st.
Proof. intros H. now apply runTransaction_abort in H. Qed.

(** What a committed payment has done. *)
Lemma createPayment_commit (companyId customerId : nat)
    (paymentData : PaymentService.PaymentData) (userId : nat) (now : Z)
    (st st' : Store) (paymentId : nat) (payment : Payment.t) :
  PaymentService.createPayment companyId customerId paymentData userId now st
  = (st', inr (paymentId, payment)) ->
  exists (customer : Customer.t) (r : Decimal * list AuditLog.DebtUpdate) (st1 : Store),
    0 <= PaymentService.amount paymentData /\
    lookupCustomer st companyId customerId = Some customer /\
    PaymentService.applyToDebts companyId customerId
      (PaymentService.appliedToDebts paymentData) 0 [] st = inr (r, st1) /\
    fst r <= PaymentService.amount paymentData /\
    paymentId = nextObjectId (payments st) /\
    Payment.amount payment = PaymentService.amount paymentData /\
    Payment.appliedToDebts payment
    = map (fun app => Payment.AppliedDebt.mk (Payment.AppliedDebt.debtId app)
                        (toDecimal128 (Payment.AppliedDebt.amount app)))
          (PaymentService.appliedToDebts paymentData) /\
    Payment.addedToCreditBalance payment = PaymentService.amount paymentData - fst r /\
    customers st'
    = <[customerId :=
          Customer.incrementVersion
            (Customer.set_lastTransactionAt
               (Some match PaymentService.paidAt paymentData with
                     | Some t => t
                     | None => now
                     end)
               (Customer.set_creditBalance
                  (Customer.creditBalance customer
                   + (PaymentService.amount paymentData - fst r))
                  (Customer.set_debtBalance (Customer.debtBalance customer - fst r)
                     customer)))]> (customers st) /\
    debts st' = debts st1 /\
    payments st' = <[paymentId := payment]> (payments st).
Proof.
  intros H. apply runTransaction_commit in H.
  unfold PaymentService.createPaymentBody in H.
  destruct (negb _) eqn:Hpos in H; [discriminate|].
  apply isPositive_true in Hpos.
  unfold bind at 1, findOrThrow in H.
  destruct (lookupCustomer st companyId customerId) as [customer|] eqn:Hc; [|discriminate].
  unfold bind at 1 in H.
  destruct (PaymentService.applyToDebts _ _ _ _ _ _) as [e | [r st1]] eqn:Hloop;
    [discriminate|].
  destruct (isGreaterThan _ _) eqn:Hgt in H; [discriminate|].
  apply isGreaterThan_false in Hgt.
  destruct (applyToDebts_success _ _ _ _ _ _ _ _ Hloop) as (_ & Hcs & Hps & _ & _).
  unfold bind, saveCustomer, savePayment, logAction, ret in H. simpl in H.
  destruct (negb (Payment.preValidate _)); [discriminate|].
  destruct (idempotencyKeyTaken _ _ _); [discriminate|].
  injection H as <- <- <-. simpl.
  exists customer, r, st1. unfold fromDecimal128, toDecimal128, subtract, add in *.
  rewrite Hps, Hcs.
  repeat split; auto.
Qed.






(** The split payment of the specification on the sample ledger: 500 paid,
    300 applied; the invoice keeps 200 and becomes partial, the customer's
    credit grows by 200 and the debt balance falls by 300. *)
Example createPayment_split :
  exists (st' : Store) (paymentId : nat) (payment : Payment.t),
    PaymentService.createPayment 1 1 Sample.splitPayment 7 0 Sample.ledger
    = (st', inr (paymentId, payment)) /\
    Payment.addedToCreditBalance payment = Sample.units 200 /\
    debts st' !! 10%nat
    = Some (Debt.set_status PARTIAL
              (Debt.set_outstandingAmount (Sample.units 200) Sample.invoice)) /\
    customers st' !! 1%nat
    = Some (Customer.mk 1 (Sample.units 1000) (Sample.units 200) (Sample.units 200)
              (Some 0) 5 true).
Proof.
  do 3 eexists. split; [vm_compute; reflexivity|].
  split; [reflexivity|]. split; vm_compute; reflexivity.
Qed.

(** More applied than paid: the call is refused and nothing is written. *)
Example createPayment_short :
  PaymentService.createPayment 1 1 Sample.shortPayment 7 0 Sample.ledger
  = (Sample.ledger, inl ValidationError).
Proof. vm_compute. reflexivity. Qed.

(** ** createDebt *)

Lemma lookupCustomer_Some (st : Store) (companyId customerId : nat) (c : Customer.t) :
  lookupCustomer st companyId customerId = Some c ->
  customers st !! customerId = Some c /\ Customer.companyId c = companyId.
Proof.
  unfold lookupCustomer. destruct (customers st !! customerId) as [c'|]; [|discriminate].
  destruct (Nat.eqb_spec (Customer.companyId c') companyId); [|discriminate].
  intros [= ->]. auto.
Qed.

Lemma missingRequiredFields_false (debtData : DebtService.DebtData) :
  DebtService.missingRequiredFields debtData = false ->
  exists (customerId : nat) (dueAt : Z),
    DebtService.customerId debtData = Some customerId /\
    DebtService.dueAt debtData = Some dueAt /\
    DebtService.totalAmount debtData <> 0.
Proof.
  unfold DebtService.missingRequiredFields.
  destruct (DebtService.customerId debtData) as [c|]; [|discriminate].
  destruct (DebtService.dueAt debtData) as [t|];
    [|intros H; rewrite !orb_true_r in H; discriminate].
  destruct (Z.eqb_spec (DebtService.totalAmount debtData) 0) as [|Hne];
    [intros H; rewrite !orb_true_r in H; discriminate|].
  intros _. exists c, t. auto.
Qed.

Lemma forallb_itemValid_preValidate (items : list Debt.Item) :
  forallb Debt.itemValid
    (map (fun item =>
            Debt.mkItem (Debt.description item) (Debt.quantity item) (Debt.price item)
              (toDecimal128 (fromDecimal128 (Debt.price item) * Debt.quantity item)))
       items)
  = forallb Debt.itemValid items.
Proof.
  induction items as [|i items IH]; [reflexivity|].
  simpl. now rewrite IH.
Qed.

(** The body of [createDebt] once the required fields are present and the
    customer is found. *)
Lemma createDebtBody_found (companyId : nat) (debtData : DebtService.DebtData)
    (userId : nat) (now : Z) (st : Store)
    (customerId : nat) (dueAt : Z) (customer : Customer.t) :
  DebtService.missingRequiredFields debtData = false ->
  DebtService.customerId debtData = Some customerId ->
  DebtService.dueAt debtData = Some dueAt ->
  lookupCustomer st companyId customerId = Some customer ->
  DebtService.createDebtBody companyId debtData userId now st
  = if negb (Customer.canAcceptDebt customer (DebtService.totalAmount debtData))
    then inl UnprocessableEntityError
    else if negb (schemaValid debtData) then inl MongooseValidationError
    else
      let debtId := nextObjectId (debts st) in
      let debt :=
        Debt.preValidate
          (Debt.set_agingBucket
             (Debt.calculateAgingBucket now
                (Debt.mk companyId customerId (DebtService.reference debtData)
                   (DebtService.totalAmount debtData) (DebtService.totalAmount debtData)
                   OPEN CURRENT dueAt (DebtService.items debtData)))
             (Debt.mk companyId customerId (DebtService.reference debtData)
                (DebtService.totalAmount debtData) (DebtService.totalAmount debtData)
                OPEN CURRENT dueAt (DebtService.items debtData))) in
      inr ((debtId, debt),
           mkStore
             (<[customerId :=
                  Customer.incrementVersion
                    (Customer.set_lastTransactionAt (Some now)
                       (Customer.set_debtBalance
                          (Customer.debtBalance customer + DebtService.totalAmount debtData)
                          customer))]> (customers st))
             (<[debtId := debt]> (debts st))
             (payments st)
             (auditLogs st ++
                [AuditLog.mk companyId userId DEBT_CREATE "Debt" debtId
                   (AuditLog.DebtCreated customerId (DebtService.reference debtData)
                      (DebtService.totalAmount debtData) dueAt) now])).
Proof.
  intros Hreq Hcid Hdue Hc.
  unfold DebtService.createDebtBody. rewrite Hreq, Hcid, Hdue.
  unfold bind at 1, findOrThrow. rewrite Hc.
  unfold fromDecimal128, toDecimal128, add.
  destruct (negb (Customer.canAcceptDebt _ _)); [reflexivity|].
  unfold bind, insertDebt, saveCustomer, logAction, ret. simpl.
  unfold Debt.validateSync, schemaValid. simpl.
  rewrite forallb_itemValid_preValidate.
  destruct (DebtService.items debtData) as [|i items] eqn:Hitems;
    [rewrite !andb_false_r; reflexivity|].
  simpl map.
  destruct (negb _); reflexivity.
Qed.

Lemma canAcceptDebt_spec (customer : Customer.t) (amount : Decimal) :
  Customer.canAcceptDebt customer amount = true
  <-> Customer.debtBalance customer + amount <= Customer.creditLimit customer.
Proof. unfold Customer.canAcceptDebt, fromDecimal128. apply Z.leb_le. Qed.



(** The two requests of the example, run: 150 is refused and nothing
    changes; 100 is accepted and the balance becomes the limit. *)
Example createDebt_credit_limit_example :
  DebtService.createDebt 1 (Sample.debtOf 150) 7 0 Sample.nearLimitLedger
  = (Sample.nearLimitLedger, inl UnprocessableEntityError) /\
  (Customer.debtBalance
     <$> customers (fst (DebtService.createDebt 1 (Sample.debtOf 100) 7 0
                           Sample.nearLimitLedger)) !! 1%nat)
  = Some (Sample.units 1000).
Proof. split; vm_compute; reflexivity. Qed.

(** C10 (as amended). For a request with its required fields,
    [createDebt] fails with NotFound exactly when no customer of the
    company has the given id; the database is then left as it was, so no
    debt is created.  The lookup does not read [isActive]. *)
Theorem createDebt_customer_absent (companyId : nat) (debtData : DebtService.DebtData)
    (userId : nat) (now : Z) (st : Store) (customerId : nat) :
  DebtService.missingRequiredFields debtData = false ->
  DebtService.customerId debtData = Some customerId ->
  (DebtService.createDebt companyId debtData userId now st = (st, inl NotFoundError)
   <-> lookupCustomer st companyId customerId = None) /\
  (forall (st' : Store) (err : AppError),
     DebtService.createDebt companyId debtData userId now st = (st', inl err) ->
     st' = st).
Proof.
  intros Hreq Hcid.
  destruct (missingRequiredFields_false _ Hreq) as (cid & dueAt & Hcid' & Hdue & _).
  assert (cid = customerId) by congruence. subst cid.
  split.
  - destruct (lookupCustomer st companyId customerId) as [customer|] eqn:Hc.
    + split; [|discriminate]. intros H. exfalso. revert H.
      unfold DebtService.createDebt, runTransaction.
      rewrite (createDebtBody_found companyId debtData userId now st
                 customerId dueAt customer Hreq Hcid Hdue Hc).
      destruct (negb (Customer.canAcceptDebt _ _)); [intros [=]|].
      destruct (negb (schemaValid debtData)); [intros [=] | cbv zeta; intros [=]].
    + split; [reflexivity|]. intros _.
      unfold DebtService.createDebt, runTransaction, DebtService.createDebtBody.
      rewrite Hreq, Hcid, Hdue. unfold bind at 1, findOrThrow. now rewrite Hc.
  - intros st' err H. now apply runTransaction_abort in H.
Qed.

(** A request for a customer id that the sample ledger does not hold. *)
Lemma createDebt_customer_absent_witness :
  (DebtService.createDebt 1
     (DebtService.mkDebtData (Some 2%nat) "INV-2" (Sample.units 100) (Some 0)
        [Sample.goods 100]) 7 0 Sample.ledger
   = (Sample.ledger, inl NotFoundError)
   <-> lookupCustomer Sample.ledger 1 2 = None) /\
  (forall (st' : Store) (err : AppError),
     DebtService.createDebt 1
       (DebtService.mkDebtData (Some 2%nat) "INV-2" (Sample.units 100) (Some 0)
          [Sample.goods 100]) 7 0 Sample.ledger = (st', inl err) ->
     st' = Sample.ledger).
Proof.
  apply (createDebt_customer_absent 1
           (DebtService.mkDebtData (Some 2%nat) "INV-2" (Sample.units 100) (Some 0)
              [Sample.goods 100]) 7 0 Sample.ledger 2%nat); reflexivity.
Defined.

(** C10 as stated fails: after [deleteCustomer] the customer of the sample
    ledger has [isActive = false], and [createDebt] still creates the debt
    and raises the balance from 500 to 600. *)
Lemma createDebt_inactive_customer_accepted :
  (Customer.isActive <$> customers Sample.inactiveLedger !! 1%nat) = Some false /\
  exists (st' : Store) (debt : Debt.t),
    DebtService.createDebt 1 (Sample.debtOf 100) 7 0 Sample.inactiveLedger
    = (st', inr (11%nat, debt)) /\
    debts Sample.inactiveLedger !! 11%nat = None /\
    debts st' !! 11%nat = Some debt /\
    (Customer.debtBalance <$> customers st' !! 1%nat) = Some (Sample.units 600).
Proof.
  split; [reflexivity|].
  do 2 eexists. split; [vm_compute; reflexivity|].
  split; [reflexivity|]. split; vm_compute; reflexivity.
Qed.

(** ** The balance invariant *)

Lemma balanceInvariantb_spec (st : Store) :
  balanceInvariantb st = true <-> balanceInvariant st.
Proof.
  unfold balanceInvariantb, balanceInvariant. rewrite forallb_forall. split.
  - intros H customerId c Hc.
    specialize (H (customerId, c)). simpl in H.
    apply Z.eqb_eq, H, list_elem_of_In, elem_of_map_to_list, Hc.
  - intros H [customerId c] Hin. simpl.
    apply Z.eqb_eq, H, elem_of_map_to_list, list_elem_of_In, Hin.
Qed.

Lemma outstandingOf_insert_None (customerId : nat) (ds : gmap nat Debt.t)
    (debtId : nat) (d : Debt.t) :
  ds !! debtId = None ->
  outstandingOf customerId (<[debtId := d]> ds)
  = outstandingOf customerId ds + contribution customerId d.
Proof.
  intros Hnone. unfold outstandingOf.
  rewrite map_fold_insert_L; [reflexivity | | exact Hnone].
  intros. lia.
Qed.

Lemma outstandingOf_insert_Some (customerId : nat) (ds : gmap nat Debt.t)
    (debtId : nat) (d0 d : Debt.t) :
  ds !! debtId = Some d0 ->
  outstandingOf customerId (<[debtId := d]> ds)
  = outstandingOf customerId ds - contribution customerId d0 + contribution customerId d.
Proof.
  intros Hsome.
  rewrite <- (insert_delete_eq ds debtId d).
  rewrite outstandingOf_insert_None by apply lookup_delete_eq.
  rewrite <- (insert_delete_id ds debtId d0 Hsome) at 2.
  rewrite outstandingOf_insert_None by apply lookup_delete_eq.
  lia.
Qed.




Lemma contribution_cancelled (customerId : nat) (d : Debt.t) :
  Debt.status d = CANCELLED -> contribution customerId d = 0.
Proof.
  intros Hs. unfold contribution, countsTowardsBalance.
  rewrite Hs. simpl. now rewrite andb_false_r.
Qed.



Lemma lookupDebtOfCompany_Some (st : Store) (companyId debtId : nat) (d : Debt.t) :
  lookupDebtOfCompany st companyId debtId = Some d ->
  debts st !! debtId = Some d /\ Debt.companyId d = companyId.
Proof.
  unfold lookupDebtOfCompany. destruct (debts st !! debtId) as [d'|]; [|discriminate].
  destruct (Nat.eqb_spec (Debt.companyId d') companyId); [|discriminate].
  intros [= ->]. auto.
Qed.

(** What a committed [cancelDebt] has done. *)
Lemma cancelDebt_commit (companyId debtId userId : nat) (now : Z) (st st' : Store)
    (cancelled : Debt.t) :
  DebtService.cancelDebt companyId debtId userId now st = (st', inr cancelled) ->
  exists (debt : Debt.t) (customer : Customer.t),
    debts st !! debtId = Some debt /\
    Debt.outstandingAmount debt = Debt.totalAmount debt /\
    customers st !! Debt.customerId debt = Some customer /\
    Debt.status cancelled = CANCELLED /\
    Debt.customerId cancelled = Debt.customerId debt /\
    debts st' = <[debtId := cancelled]> (debts st) /\
    customers st'
    = <[Debt.customerId debt :=
          Customer.incrementVersion
            (Customer.set_debtBalance
               (Customer.debtBalance customer - Debt.totalAmount debt) customer)]>
        (customers st).
Proof.
  intros H. apply runTransaction_commit in H.
  unfold DebtService.cancelDebtBody in H.
  unfold bind at 1, findOrThrow in H.
  destruct (lookupDebtOfCompany st companyId debtId) as [debt|] eqn:Hd; [|discriminate].
  apply lookupDebtOfCompany_Some in Hd. destruct Hd as (Hd & _).
  unfold equals, fromDecimal128 in H.
  destruct (Z.eqb_spec (Debt.outstandingAmount debt) (Debt.totalAmount debt)) as [Heq|];
    [|discriminate].
  simpl in H. unfold bind at 1, saveDebt in H.
  unfold bind at 1, findOrThrow in H. simpl in H.
  destruct (customers st !! Debt.customerId debt) as [customer|] eqn:Hc; [|discriminate].
  unfold bind, saveCustomer, logAction, ret, subtract, toDecimal128, fromDecimal128 in H.
  simpl in H. injection H as <- <-.
  exists debt, customer. simpl. repeat split; auto.
Qed.


(** [cancelDebt] on a debt that is already cancelled, when it succeeds,
    breaks the balance invariant (unless the total is zero). *)
Lemma cancelDebt_again_breaks_balance (companyId debtId userId : nat) (now : Z)
    (st st' : Store) (debt cancelled : Debt.t) :
  balanceInvariant st ->
  debts st !! debtId = Some debt ->
  Debt.status debt = CANCELLED ->
  Debt.totalAmount debt <> 0 ->
  DebtService.cancelDebt companyId debtId userId now st = (st', inr cancelled) ->
  ~ balanceInvariant st'.
Proof.
  intros Hinv Hdebt Hcancelled Hne H Hinv'.
  destruct (cancelDebt_commit _ _ _ _ _ _ _ H)
    as (debt' & customer & Hd & Hfull & Hc & Hs & Hk & Hds & Hcs).
  assert (debt' = debt) by congruence. subst debt'.
  assert (Hid : customers st' !! Debt.customerId debt
                = Some (Customer.incrementVersion
                          (Customer.set_debtBalance
                             (Customer.debtBalance customer - Debt.totalAmount debt)
                             customer)))
    by (rewrite Hcs; apply lookup_insert_eq).
  apply Hinv' in Hid. simpl in Hid.
  rewrite Hds, (outstandingOf_insert_Some _ _ _ debt) in Hid by exact Hd.
  rewrite !contribution_cancelled in Hid by assumption.
  rewrite (Hinv _ _ Hc) in Hid. lia.
Qed.




(** C3, at the input on which the code breaks the invariant.  The sample
    ledger satisfies it (balance 500, one open invoice of 500) and so does
    the ledger after the invoice is cancelled (balance 0, no debt counted).
    A second [cancelDebt] on the same, already cancelled, invoice succeeds
    again and subtracts the total once more: the balance becomes -500
    while the sum of the non-cancelled outstanding amounts is still 0. *)
Theorem cancelDebt_twice_breaks_balance :
  balanceInvariant Sample.ledger /\
  balanceInvariant Sample.cancelledOnce /\
  (Debt.status <$> debts Sample.cancelledOnce !! 10%nat) = Some CANCELLED /\
  (exists debt : Debt.t,
     DebtService.cancelDebt 1 10 7 0 Sample.cancelledOnce
     = (Sample.cancelledTwice, inr debt)) /\
  (Customer.debtBalance <$> customers Sample.cancelledTwice !! 1%nat)
  = Some (Sample.units (-500)) /\
  outstandingOf 1 (debts Sample.cancelledTwice) = 0 /\
  ~ balanceInvariant Sample.cancelledTwice.
Proof.
  split; [apply balanceInvariantb_spec; vm_compute; reflexivity|].
  split; [apply balanceInvariantb_spec; vm_compute; reflexivity|].
  split; [vm_compute; reflexivity|].
  split; [eexists; vm_compute; reflexivity|].
  split; [vm_compute; reflexivity|].
  split; [vm_compute; reflexivity|].
  intros H. apply balanceInvariantb_spec in H. vm_compute in H. discriminate.
Qed.

(** The same defect on the payment path: a payment applied to the
    cancelled invoice is accepted, the invoice stays cancelled and the
    balance goes from 0 to -100. *)
Example createPayment_on_cancelled_debt :
  balanceInvariant Sample.cancelledOnce /\
  exists (st' : Store) (paymentId : nat) (payment : Payment.t),
    PaymentService.createPayment 1 1
      (PaymentService.mkPaymentData (Sample.units 100) CASH
         [Payment.AppliedDebt.mk 10 (Sample.units 100)] None None)
      7 0 Sample.cancelledOnce
    = (st', inr (paymentId, payment)) /\
    (Debt.status <$> debts st' !! 10%nat) = Some CANCELLED /\
    (Customer.debtBalance <$> customers st' !! 1%nat) = Some (Sample.units (-100)) /\
    ~ balanceInvariant st'.
Proof.
  split; [apply balanceInvariantb_spec; vm_compute; reflexivity|].
  do 3 eexists. split; [vm_compute; reflexivity|].
  split; [vm_compute; reflexivity|]. split; [vm_compute; reflexivity|].
  intros H. apply balanceInvariantb_spec in H. vm_compute in H. discriminate.
Qed.

(** ** pushChanges *)

Lemma processChangesets_cons (companyId : nat) (changeset : SyncService.Changeset.t)
    (rest : list SyncService.Changeset.t) (acc : Store * SyncService.Results) :
  processChangesets companyId (changeset :: rest) acc
  = processChangesets companyId rest (SyncService.processChangeset companyId changeset acc).
Proof. reflexivity. Qed.

Lemma processChangesets_conflicts_kept (companyId : nat)
    (changesets : list SyncService.Changeset.t) :
  forall (st : Store) (results : SyncService.Results) (c : SyncService.Conflict.t),
    In c (SyncService.conflicts results) ->
    In c (SyncService.conflicts
            (snd (processChangesets companyId changesets (st, results)))).
Proof.
  induction changesets as [|cs rest IH]; intros st results c Hin; [exact Hin|].
  rewrite processChangesets_cons.
  destruct (SyncService.processChangeset companyId cs (st, results)) as [st1 r1] eqn:E.
  apply IH.
  unfold SyncService.processChangeset in E.
  destruct (SyncService.findOne _ _ _ _) as [e | [document|]].
  - injection E as <- <-. simpl. apply in_or_app. now left.
  - destruct (SyncService.versionConflict _ _).
    + injection E as <- <-. simpl. apply in_or_app. now left.
    + destruct (SyncService.save _ _ _) as [e | [u st2]];
        injection E as <- <-; simpl; [apply in_or_app; now left | exact Hin].
  - injection E as <- <-. simpl. apply in_or_app. now left.
Qed.

(** A changeset whose version differs from the version of the server
    document is turned into a conflict and nothing is written. *)
Lemma processChangeset_version_conflict (companyId : nat)
    (changeset : SyncService.Changeset.t) (st : Store) (results : SyncService.Results)
    (document : SyncService.Document) (serverVersion : Z) :
  SyncService.findOne (SyncService.Changeset.entity changeset)
    (SyncService.Changeset.entityId changeset) companyId st = inr (Some document) ->
  SyncService.documentVersion document = Some serverVersion ->
  serverVersion <> SyncService.Changeset.version changeset ->
  SyncService.processChangeset companyId changeset (st, results)
  = (st, SyncService.pushConflict (versionMismatch changeset serverVersion document) results).
Proof.
  intros Hfind Hver Hne. unfold SyncService.processChangeset.
  rewrite Hfind. unfold SyncService.versionConflict. rewrite Hver.
  destruct (Z.eqb_spec serverVersion (SyncService.Changeset.version changeset));
    [contradiction|].
  reflexivity.
Qed.

(** A document without a version path (a debt, a payment) is never in
    conflict, whatever version the client sends. *)
Lemma versionConflict_unversioned (document : SyncService.Document) (version : Z) :
  SyncService.documentVersion document = None ->
  SyncService.versionConflict document version = false.
Proof. intros H. unfold SyncService.versionConflict. now rewrite H. Qed.

(** C9. In a batch, a changeset whose target exists and whose version
    differs from the server version is reported in [conflicts] with the
    server's version and the server document; the database after the
    changeset is the database before it, and the changesets that follow
    are processed from there. *)
Theorem pushChanges_version_conflict (companyId userId : nat)
    (before after : list SyncService.Changeset.t)
    (changeset : SyncService.Changeset.t)
    (st st1 : Store) (results1 : SyncService.Results)
    (document : SyncService.Document) (serverVersion : Z) :
  processChangesets companyId before (st, SyncService.mkResults [] []) = (st1, results1) ->
  SyncService.findOne (SyncService.Changeset.entity changeset)
    (SyncService.Changeset.entityId changeset) companyId st1 = inr (Some document) ->
  SyncService.documentVersion document = Some serverVersion ->
  serverVersion <> SyncService.Changeset.version changeset ->
  let conflict := versionMismatch changeset serverVersion document in
  SyncService.processChangeset companyId changeset (st1, results1)
  = (st1, SyncService.pushConflict conflict results1) /\
  SyncService.findOne (SyncService.Changeset.entity changeset)
    (SyncService.Changeset.entityId changeset) companyId
    (fst (SyncService.processChangeset companyId changeset (st1, results1)))
  = inr (Some document) /\
  exists (st' : Store) (results : SyncService.Results),
    SyncService.pushChanges companyId (before ++ changeset :: after) userId st
    = (st', inr results) /\
    (st', results)
    = processChangesets companyId after
        (st1, SyncService.pushConflict conflict results1) /\
    In conflict (SyncService.conflicts results).
Proof.
  intros Hbefore Hfind Hver Hne conflict.
  pose proof (processChangeset_version_conflict companyId changeset st1 results1
                document serverVersion Hfind Hver Hne) as Hstep.
  fold conflict in Hstep.
  split; [exact Hstep|]. split; [rewrite Hstep; exact Hfind|].
  destruct (processChangesets companyId after
              (st1, SyncService.pushConflict conflict results1)) as [st' results] eqn:Hafter.
  exists st', results.
  assert (Hall : processChangesets companyId (before ++ changeset :: after)
                   (st, SyncService.mkResults [] []) = (st', results)).
  { unfold processChangesets in *. rewrite fold_left_app, Hbefore.
    cbn [fold_left]. rewrite Hstep. exact Hafter. }
  split; [|split; [reflexivity|]].
  - unfold SyncService.pushChanges.
    destruct (before ++ changeset :: after) as [|c l] eqn:El.
    + destruct before; discriminate.
    + unfold processChangesets in Hall. rewrite Hall. reflexivity.
  - pose proof (processChangesets_conflicts_kept companyId after st1
                  (SyncService.pushConflict conflict results1) conflict) as Hkept.
    rewrite Hafter in Hkept. apply Hkept. simpl. apply in_or_app. right. now left.
Qed.

(** The example of the specification: the client pushes version 3 of the
    customer while the server holds version 4. *)
Lemma pushChanges_version_conflict_witness :
  let conflict :=
    versionMismatch Sample.staleCustomerChange 4 (SyncService.CustomerDoc Sample.customer) in
  SyncService.processChangeset 1 Sample.staleCustomerChange
    (Sample.ledger, SyncService.mkResults [] [])
  = (Sample.ledger, SyncService.pushConflict conflict (SyncService.mkResults [] [])) /\
  SyncService.findOne "Customer" 1 1
    (fst (SyncService.processChangeset 1 Sample.staleCustomerChange
            (Sample.ledger, SyncService.mkResults [] [])))
  = inr (Some (SyncService.CustomerDoc Sample.customer)) /\
  exists (st' : Store) (results : SyncService.Results),
    SyncService.pushChanges 1 ([] ++ Sample.staleCustomerChange :: []) 7 Sample.ledger
    = (st', inr results) /\
    (st', results)
    = processChangesets 1 []
        (Sample.ledger, SyncService.pushConflict conflict (SyncService.mkResults [] [])) /\
    In conflict (SyncService.conflicts results).
Proof.
  apply (pushChanges_version_conflict 1 7 [] [] Sample.staleCustomerChange
           Sample.ledger Sample.ledger (SyncService.mkResults [] [])
           (SyncService.CustomerDoc Sample.customer) 4).
  - reflexivity.
  - reflexivity.
  - reflexivity.
  - discriminate.
Defined.

(** ** Operations and the payments collection *)

Section KeepsPayments.

Context {A B : Type}.

Lemma keepsPayments_ret (a : A) : keepsPayments (ret a).
Proof. intros st st' a' [= _ <-]. reflexivity. Qed.

Lemma keepsPayments_throw (e : AppError) : keepsPayments (@throw A e).
Proof. intros st st' a [=]. Qed.

Lemma keepsPayments_bind (m : Tx A) (k : A -> Tx B) :
  keepsPayments m -> (forall a : A, keepsPayments (k a)) -> keepsPayments (bind m k).
Proof.
  intros Hm Hk st st' b. unfold bind.
  destruct (m st) as [e | [a st1]] eqn:E; [discriminate|].
  intros H. rewrite (Hk a _ _ _ H). exact (Hm _ _ _ E).
Qed.

Lemma keepsPayments_findOrThrow (find : Store -> option A) (e : AppError) :
  keepsPayments (findOrThrow find e).
Proof.
  intros st st' a. unfold findOrThrow.
  destruct (find st); [intros [= _ <-]; reflexivity | discriminate].
Qed.

End KeepsPayments.

Lemma keepsPayments_saveDebt (debtId : nat) (d : Debt.t) : keepsPayments (saveDebt debtId d).
Proof. intros st st' a [= _ <-]. reflexivity. Qed.

Lemma keepsPayments_insertDebt (debtId : nat) (d : Debt.t) :
  keepsPayments (insertDebt debtId d).
Proof.
  intros st st' a. unfold insertDebt.
  destruct (negb _); [discriminate | intros [= _ <-]; reflexivity].
Qed.

Lemma keepsPayments_saveCustomer (customerId : nat) (c : Customer.t) :
  keepsPayments (saveCustomer customerId c).
Proof. intros st st' a [= _ <-]. reflexivity. Qed.

Lemma keepsPayments_logAction (entry : AuditLog.t) : keepsPayments (logAction entry).
Proof. intros st st' a [= _ <-]. reflexivity. Qed.

Lemma keepsPayments_read {A : Type} (f : Store -> A) :
  keepsPayments (fun st => inr (f st, st)).
Proof. intros st st' a [= _ <-]. reflexivity. Qed.

Create HintDb tx.

#[export] Hint Resolve keepsPayments_ret keepsPayments_throw keepsPayments_findOrThrow
  keepsPayments_saveDebt keepsPayments_insertDebt keepsPayments_saveCustomer
  keepsPayments_logAction keepsPayments_read : tx.

(** Walks through a transaction body: binds, branches, primitive steps. *)
Ltac keeps_payments :=
  repeat first
    [ progress auto with tx
    | apply keepsPayments_bind; [|intros ?]
    | match goal with
      | |- keepsPayments (if ?b then _ else _) => destruct b
      | |- keepsPayments (match ?x with _ => _ end) => destruct x
      end ].

Lemma createDebtBody_keepsPayments (companyId : nat) (debtData : DebtService.DebtData)
    (userId : nat) (now : Z) :
  keepsPayments (DebtService.createDebtBody companyId debtData userId now).
Proof. unfold DebtService.createDebtBody. keeps_payments. Qed.

Lemma cancelDebtBody_keepsPayments (companyId debtId userId : nat) (now : Z) :
  keepsPayments (DebtService.cancelDebtBody companyId debtId userId now).
Proof. unfold DebtService.cancelDebtBody. keeps_payments. Qed.

Lemma runTransaction_keepsPayments {A : Type} (body : Tx A) (st st' : Store)
    (r : AppError + A) :
  keepsPayments body -> runTransaction body st = (st', r) -> payments st' = payments st.
Proof.
  intros Hbody. unfold runTransaction.
  destruct (body st) as [e | [a st1]] eqn:E; intros [= <- _]; [reflexivity|].
  exact (Hbody _ _ _ E).
Qed.

Lemma save_keepsPayments (entityId : nat) (document : SyncService.Document) :
  (forall p : Payment.t, document <> SyncService.PaymentDoc p) ->
  keepsPayments (SyncService.save entityId document).
Proof.
  intros Hdoc. destruct document as [c | d | p]; simpl.
  - keeps_payments.
  - keeps_payments.
  - now destruct (Hdoc p).
Qed.

Lemma processChangeset_keepsPayments (companyId : nat)
    (changeset : SyncService.Changeset.t) (st : Store) (results : SyncService.Results) :
  SyncService.Changeset.entity changeset <> "Payment" ->
  payments (fst (SyncService.processChangeset companyId changeset (st, results)))
  = payments st.
Proof.
  intros Hentity. apply String.eqb_neq in Hentity.
  unfold SyncService.processChangeset.
  destruct (SyncService.findOne _ _ _ _) as [e | [document|]] eqn:Hfind; [reflexivity | | reflexivity].
  destruct (SyncService.versionConflict _ _); [reflexivity|].
  destruct (SyncService.save _ _ _) as [e | [u st1]] eqn:Hsave; [reflexivity|].
  simpl. revert Hsave. apply save_keepsPayments.
  intros p. unfold SyncService.findOne in Hfind. rewrite Hentity in Hfind.
  destruct (String.eqb _ "Customer");
    [|destruct (String.eqb _ "Debt"); [|discriminate]].
  - destruct (lookupCustomer _ _ _); [|discriminate].
    injection Hfind as <-. discriminate.
  - destruct (lookupDebtOfCompany _ _ _); [|discriminate].
    injection Hfind as <-. discriminate.
Qed.

Lemma processChangesets_keepsPayments (companyId : nat)
    (changesets : list SyncService.Changeset.t) :
  forall (st : Store) (results : SyncService.Results),
    (forall changeset, In changeset changesets ->
                       SyncService.Changeset.entity changeset <> "Payment") ->
    payments (fst (processChangesets companyId changesets (st, results))) = payments st.
Proof.
  induction changesets as [|cs rest IH]; intros st results Hall; [reflexivity|].
  rewrite processChangesets_cons.
  pose proof (processChangeset_keepsPayments companyId cs st results
                (Hall cs (or_introl eq_refl))) as Hstep.
  destruct (SyncService.processChangeset companyId cs (st, results)) as [st1 r1].
  simpl in Hstep. rewrite <- Hstep. apply IH.
  intros c Hc. apply Hall. now right.
Qed.

(** C8 (as amended). An existing Payment record is not modified by the
    ledger operations ([createDebt], [cancelDebt], [createPayment], which
    only adds the new record under a fresh id), by the aging job, by the
    customer operations, or by a [pushChanges] batch without a changeset
    whose entity is 'Payment'. *)
Theorem payments_immutable_outside_payment_sync :
  (forall companyId debtData userId now st st' r,
     DebtService.createDebt companyId debtData userId now st = (st', r) ->
     payments st' = payments st) /\
  (forall companyId debtId userId now st st' r,
     DebtService.cancelDebt companyId debtId userId now st = (st', r) ->
     payments st' = payments st) /\
  (forall companyId customerId paymentData userId now st st' r,
     PaymentService.createPayment companyId customerId paymentData userId now st
     = (st', r) ->
     forall (paymentId : nat) (payment : Payment.t),
       payments st !! paymentId = Some payment ->
       payments st' !! paymentId = Some payment) /\
  (forall companyId now st,
     payments (AgingJob.updateAgingBuckets companyId now st) = payments st) /\
  (forall companyId customerId updateData userId now st,
     payments (fst (CustomerService.updateCustomer companyId customerId updateData
                      userId now st)) = payments st) /\
  (forall companyId customerId userId now st,
     payments (fst (CustomerService.deleteCustomer companyId customerId userId now st))
     = payments st) /\
  (forall companyId changesets userId st st' r,
     SyncService.pushChanges companyId changesets userId st = (st', r) ->
     (forall changeset, In changeset changesets ->
                        SyncService.Changeset.entity changeset <> "Payment") ->
     payments st' = payments st).
Proof.
  repeat split.
  - intros companyId debtData userId now st st' r H.
    eapply runTransaction_keepsPayments; [|exact H].
    apply createDebtBody_keepsPayments.
  - intros companyId debtId userId now st st' r H.
    eapply runTransaction_keepsPayments; [|exact H].
    apply cancelDebtBody_keepsPayments.
  - intros companyId customerId paymentData userId now st st' [err | [newId new]] H
           paymentId payment Hp.
    + apply createPayment_abort in H. now subst st'.
    + destruct (createPayment_commit _ _ _ _ _ _ _ _ _ H)
        as (_ & _ & _ & _ & _ & _ & _ & Hid & _ & _ & _ & _ & _ & Hps).
      rewrite Hps. rewrite lookup_insert_ne; [exact Hp|].
      intros ->. rewrite Hid, nextObjectId_fresh in Hp. discriminate.
  - intros companyId customerId updateData userId now st.
    unfold CustomerService.updateCustomer.
    now destruct (lookupCustomer st companyId customerId).
  - intros companyId customerId userId now st.
    unfold CustomerService.deleteCustomer.
    now destruct (lookupCustomer st companyId customerId).
  - intros companyId changesets userId st st' r H Hall.
    unfold SyncService.pushChanges in H.
    destruct changesets as [|cs rest]; [now injection H as <- _|].
    pose proof (processChangesets_keepsPayments companyId (cs :: rest) st
                  (SyncService.mkResults [] []) Hall) as Hkeep.
    unfold processChangesets in Hkeep.
    destruct (fold_left _ (cs :: rest) _) as [st1 r1].
    injection H as <- _. exact Hkeep.
Qed.

(** A payment made on the ledger that holds the receipt leaves the
    receipt as it is. *)
Lemma payments_immutable_outside_payment_sync_witness :
  payments
    (fst (PaymentService.createPayment 1 1 Sample.splitPayment 7 0
            Sample.ledgerWithReceipt)) !! 20%nat
  = Some Sample.receipt.
Proof.
  apply (proj1 (proj2 (proj2 payments_immutable_outside_payment_sync))
           1%nat 1%nat Sample.splitPayment 7%nat 0 Sample.ledgerWithReceipt _ _
           (surjective_pairing _)).
  reflexivity.
Defined.

(** C8 as stated fails: pushing a changeset whose entity is 'Payment'
    rewrites the method of the stored receipt from cash to card.  The
    Payment schema has no version path, so no version check stands in the
    way. *)
Lemma pushChanges_rewrites_payment :
  (Payment.method <$> payments Sample.ledgerWithReceipt !! 20%nat) = Some CASH /\
  exists (st' : Store) (results : SyncService.Results),
    SyncService.pushChanges 1 [Sample.rewriteReceipt] 7 Sample.ledgerWithReceipt
    = (st', inr results) /\
    SyncService.applied results = [SyncService.Applied.mk 20 "Payment" None] /\
    SyncService.conflicts results = [] /\
    (Payment.method <$> payments st' !! 20%nat) = Some CARD /\
    payments st' !! 20%nat <> payments Sample.ledgerWithReceipt !! 20%nat.
Proof.
  split; [reflexivity|].
  do 2 eexists. split; [vm_compute; reflexivity|].
  split; [reflexivity|]. split; [reflexivity|]. split; [vm_compute; reflexivity|].
  vm_compute. discriminate.
Qed.

(** ** The idempotency gate *)

Lemma redisGet_setex (redisKey : string) (value : Idempotency.Response) (now now' : Z)
    (r : gmap string (Z * Idempotency.Response)) :
  now' < now + IDEMPOTENCY_TTL_SECONDS * 1000 ->
  Idempotency.redisGet redisKey now'
    (Idempotency.redisSetex redisKey IDEMPOTENCY_TTL_SECONDS value now r)
  = Some value.
Proof.
  intros Hlt. unfold Idempotency.redisGet, Idempotency.redisSetex.
  rewrite lookup_insert_eq.
  destruct (Z.ltb_spec now' (now + IDEMPOTENCY_TTL_SECONDS * 1000)); [reflexivity | lia].
Qed.

(** A request that finds its key in the cache is answered from the cache
    and changes nothing. *)
Lemma idempotency_hit (req : Idempotency.Request) (now : Z) (setexOk : bool)
    (w : Idempotency.World) (idempotencyKey : string) (cached : Idempotency.Response) :
  Idempotency.idempotencyKeyHeader req = Some idempotencyKey ->
  Idempotency.isValidIdempotencyKey idempotencyKey = true ->
  Idempotency.redisGet (IDEMPOTENCY_KEY_PREFIX ++ idempotencyKey)%string now
    (Idempotency.redis w) = Some cached ->
  Idempotency.idempotency req now setexOk w = (w, cached).
Proof.
  intros Hkey Hvalid Hget. unfold Idempotency.idempotency.
  rewrite Hkey, Hvalid, Hget. simpl. now destruct cached.
Qed.

(** C4 (as amended). When the first submission under a key, one that finds
    nothing cached for it, is answered with a 2xx status and its response
    is stored, every later submission under the same key before the
    24-hour expiry, whatever its body, gets the same response and leaves
    the whole state (customers, debts, payments, audit trail, cache) as the
    first execution left it. *)
Theorem idempotency_replay (first second : Idempotency.Request)
    (now now' : Z) (setexOk' : bool) (w w1 : Idempotency.World)
    (idempotencyKey : string) (response : Idempotency.Response) :
  Idempotency.idempotencyKeyHeader first = Some idempotencyKey ->
  Idempotency.idempotencyKeyHeader second = Some idempotencyKey ->
  Idempotency.redisGet (IDEMPOTENCY_KEY_PREFIX ++ idempotencyKey)%string now
    (Idempotency.redis w) = None ->
  Idempotency.idempotency first now true w = (w1, response) ->
  200 <= Idempotency.status response < 300 ->
  now' < now + IDEMPOTENCY_TTL_SECONDS * 1000 ->
  Idempotency.idempotency second now' setexOk' w1 = (w1, response).
Proof.
  intros Hfirst Hsecond Hmiss Hrun Hok Hbefore.
  unfold Idempotency.idempotency in Hrun. rewrite Hfirst, Hmiss in Hrun.
  destruct (Idempotency.isValidIdempotencyKey idempotencyKey) eqn:Hvalid; simpl in Hrun.
  2:{ injection Hrun as <- <-. simpl in Hok. lia. }
  destruct (Idempotency.next first idempotencyKey now (Idempotency.db w))
    as [st' response'] eqn:Hnext.
  injection Hrun as <- <-.
  destruct (Z.leb_spec 200 (Idempotency.status response')); [|lia].
  destruct (Z.ltb_spec (Idempotency.status response') 300); [|lia].
  simpl.
  apply idempotency_hit with (idempotencyKey := idempotencyKey);
    [exact Hsecond | exact Hvalid |].
  cbn [Idempotency.redis]. apply redisGet_setex. exact Hbefore.
Qed.

(** A response outside 2xx is not stored: the cache is as it was. *)
Lemma idempotency_failure_not_cached (req : Idempotency.Request) (now : Z)
    (setexOk : bool) (w w1 : Idempotency.World) (response : Idempotency.Response) :
  Idempotency.idempotency req now setexOk w = (w1, response) ->
  ~ (200 <= Idempotency.status response < 300) ->
  Idempotency.redis w1 = Idempotency.redis w.
Proof.
  intros Hrun Hfail. unfold Idempotency.idempotency in Hrun.
  destruct (Idempotency.idempotencyKeyHeader req) as [idempotencyKey|];
    [|now injection Hrun as <- _].
  destruct (negb _); [now injection Hrun as <- _|].
  destruct (Idempotency.redisGet _ _ _) as [cached|]; [now injection Hrun as <- _|].
  destruct (Idempotency.next _ _ _ _) as [st' response'].
  injection Hrun as <- <-. simpl.
  destruct (Z.leb_spec 200 (Idempotency.status response'));
    destruct (Z.ltb_spec (Idempotency.status response') 300); simpl; try reflexivity.
  exfalso. apply Hfail. lia.
Qed.

(** A payment on the sample ledger, then a different body under the same
    key one hour later. *)
Lemma idempotency_replay_witness :
  Idempotency.idempotency Sample.firstSubmission 3600000 false
    (fst (Idempotency.idempotency Sample.secondSubmission 0 true Sample.world))
  = Idempotency.idempotency Sample.secondSubmission 0 true Sample.world.
Proof.
  rewrite (surjective_pairing
             (Idempotency.idempotency Sample.secondSubmission 0 true Sample.world)) at 2.
  apply (idempotency_replay Sample.secondSubmission Sample.firstSubmission
           0 3600000 false Sample.world _ Sample.key).
  - reflexivity.
  - reflexivity.
  - reflexivity.
  - apply surjective_pairing.
  - vm_compute. split; [intros H; discriminate H | reflexivity].
  - reflexivity.
Defined.

(** C4 as stated fails: the first submission under the key is refused
    (404, unknown customer) and nothing is stored for it; the second
    submission under the same key, with another body, is then executed:
    it is answered 201 and records a payment. *)
Lemma idempotency_no_replay_after_failure :
  Idempotency.idempotencyKeyHeader Sample.firstSubmission
  = Idempotency.idempotencyKeyHeader Sample.secondSubmission /\
  Idempotency.idempotency Sample.firstSubmission 0 true Sample.world
  = (Sample.world, Idempotency.mkResponse 404 (Idempotency.Failure NotFoundError)) /\
  exists (w2 : Idempotency.World) (payment : Payment.t),
    Idempotency.idempotency Sample.secondSubmission 1000 true Sample.world
    = (w2, Idempotency.mkResponse 201 (Idempotency.PaymentCreated 0 payment)) /\
    payments (Idempotency.db Sample.world) !! 0%nat = None /\
    payments (Idempotency.db w2) !! 0%nat = Some payment /\
    (Customer.debtBalance <$> customers (Idempotency.db w2) !! 1%nat)
    = Some (Sample.units 400).
Proof.
  split; [reflexivity|]. split; [vm_compute; reflexivity|].
  do 2 eexists. split; [vm_compute; reflexivity|].
  split; [reflexivity|]. split; vm_compute; reflexivity.
Qed.

(** * Further properties of the models and the services *)

(** ** The models *)

Lemma AGING_BUCKETS_eqb_refl (b : AGING_BUCKETS) : AGING_BUCKETS_eqb b b = true.
Proof. now destruct b. Qed.

Lemma AGING_BUCKETS_eqb_eq (a b : AGING_BUCKETS) : AGING_BUCKETS_eqb a b = true <-> a = b.
Proof. destruct a, b; simpl; split; congruence. Qed.

Lemma updateStatus_twice (d : Debt.t) :
  Debt.updateStatus (Debt.updateStatus d) = Debt.updateStatus d.
Proof.
  unfold Debt.updateStatus, fromDecimal128.
  destruct (DEBT_STATUS_eqb (Debt.status d) CANCELLED) eqn:E; [now rewrite E|].
  destruct (Debt.outstandingAmount d =? 0) eqn:E0; simpl; [now rewrite E0|].
  destruct (Debt.outstandingAmount d <? Debt.totalAmount d) eqn:E1;
    simpl; rewrite E0, E1; reflexivity.
Qed.

(** X1. [updateStatus] is idempotent, and it forgets the status it finds
    unless that status is cancelled: run again on its own result it
    changes nothing, and two debts that differ only in a status other than
    cancelled get the same result, so the status of a debt that is not
    cancelled is determined by its amounts alone. *)
Theorem updateStatus_idempotent (d : Debt.t) :
  Debt.updateStatus (Debt.updateStatus d) = Debt.updateStatus d /\
  (forall s : DEBT_STATUS,
     s <> CANCELLED -> Debt.status d <> CANCELLED ->
     Debt.updateStatus (Debt.set_status s d) = Debt.updateStatus d).
Proof.
  split; [apply updateStatus_twice|].
  intros s Hs Hd. apply DEBT_STATUS_eqb_neq in Hs, Hd.
  unfold Debt.updateStatus, fromDecimal128.
  cbn [Debt.status Debt.outstandingAmount Debt.totalAmount Debt.set_status].
  rewrite Hs, Hd.
  destruct (_ =? 0); [reflexivity|]. destruct (_ <? _); reflexivity.
Qed.

(** The sample invoice, marked partial by hand: the next [updateStatus]
    gives what it gives for the open invoice. *)
Lemma updateStatus_idempotent_witness :
  Debt.updateStatus (Debt.set_status PARTIAL Sample.invoice)
  = Debt.updateStatus Sample.invoice.
Proof.
  apply (proj2 (updateStatus_idempotent Sample.invoice) PARTIAL);
    intros H; discriminate H.
Defined.

(** X2. The aging bucket of a debt never moves back as time passes: for
    now <= now' the bucket computed at now' is the same or a later one. *)
Theorem calculateAgingBucket_monotone (now now' : Z) (d : Debt.t) :
  now <= now' ->
  bucketRank (Debt.calculateAgingBucket now d)
  <= bucketRank (Debt.calculateAgingBucket now' d).
Proof.
  intros Hle. unfold Debt.calculateAgingBucket.
  destruct (_ || _); [simpl; lia|].
  assert (Hd : Debt.daysOverdue now d <= Debt.daysOverdue now' d).
  { unfold Debt.daysOverdue. apply Z.div_le_mono; [reflexivity | lia]. }
  cbv zeta.
  repeat match goal with
         | |- context [?a <? ?b] => destruct (Z.ltb_spec a b)
         | |- context [?a <=? ?b] => destruct (Z.leb_spec a b)
         end; simpl; lia.
Qed.

(** The sample invoice, due at 0, on its due date and 45 days later. *)
Lemma calculateAgingBucket_monotone_witness :
  bucketRank (Debt.calculateAgingBucket 0 Sample.invoice)
  <= bucketRank (Debt.calculateAgingBucket (45 * Debt.msPerDay) Sample.invoice).
Proof.
  apply (calculateAgingBucket_monotone 0 (45 * Debt.msPerDay) Sample.invoice).
  unfold Debt.msPerDay. lia.
Defined.


(** ** createPayment, step by step *)

(** The validate hook accepts the record that [createPayment] builds. *)
Lemma preValidate_built (companyId customerId : nat) (amount : Decimal)
    (method : PAYMENT_METHODS) (applications : list Payment.AppliedDebt.t)
    (key : option string) (paidOn : Z) (userId : nat) :
  Payment.preValidate
    (Payment.mk companyId customerId amount method
       (map (fun app => Payment.AppliedDebt.mk (Payment.AppliedDebt.debtId app)
                          (toDecimal128 (Payment.AppliedDebt.amount app))) applications)
       (amount - Payment.totalAppliedOf applications) key paidOn userId)
  = true.
Proof.
  unfold Payment.preValidate. cbn [Payment.appliedToDebts Payment.amount
                                    Payment.addedToCreditBalance].
  destruct (map _ applications) as [|x l] eqn:E; [reflexivity|].
  rewrite <- E, totalAppliedOf_snapshot.
  replace (Payment.totalAppliedOf applications
           + (amount - Payment.totalAppliedOf applications) - amount) with 0 by lia.
  reflexivity.
Qed.

(** The body of [createPayment], branch by branch. *)
Lemma createPaymentBody_run (companyId customerId : nat)
    (paymentData : PaymentService.PaymentData) (userId : nat) (now : Z) (st : Store) :
  PaymentService.createPaymentBody companyId customerId paymentData userId now st
  = if negb (isPositive (PaymentService.amount paymentData)) then inl ValidationError
    else
      match lookupCustomer st companyId customerId with
      | None => inl NotFoundError
      | Some customer =>
        match PaymentService.applyToDebts companyId customerId
                (PaymentService.appliedToDebts paymentData) 0 [] st with
        | inl e => inl e
        | inr (r, st1) =>
          let totalApplied :=
            Payment.totalAppliedOf (PaymentService.appliedToDebts paymentData) in
          let credit := PaymentService.amount paymentData - totalApplied in
          let paidOn :=
            match PaymentService.paidAt paymentData with Some t => t | None => now end in
          let paymentId := nextObjectId (payments st) in
          let payment :=
            Payment.mk companyId customerId (PaymentService.amount paymentData)
              (PaymentService.method paymentData)
              (map (fun app => Payment.AppliedDebt.mk (Payment.AppliedDebt.debtId app)
                                 (toDecimal128 (Payment.AppliedDebt.amount app)))
                 (PaymentService.appliedToDebts paymentData))
              credit (PaymentService.idempotencyKey paymentData) paidOn userId in
          if isGreaterThan totalApplied (PaymentService.amount paymentData)
          then inl ValidationError
          else if idempotencyKeyTaken (PaymentService.idempotencyKey paymentData)
                    paymentId (payments st)
          then inl DuplicateKeyError
          else
            inr ((paymentId, payment),
                 mkStore
                   (<[customerId :=
                        Customer.mk (Customer.companyId customer)
                          (Customer.creditLimit customer)
                          (Customer.debtBalance customer - totalApplied)
                          (Customer.creditBalance customer + credit)
                          (Some paidOn) (Customer.version customer + 1)
                          (Customer.isActive customer)]> (customers st))
                   (debts st1)
                   (<[paymentId := payment]> (payments st))
                   (auditLogs st ++
                      [AuditLog.mk companyId userId PAYMENT_CREATE "Payment" paymentId
                         (AuditLog.PaymentCreated customerId
                            (PaymentService.amount paymentData)
                            (PaymentService.method paymentData) (snd r) credit
                            (Customer.debtBalance customer - totalApplied)
                            (Customer.creditBalance customer + credit))
                         now]))
        end
      end.
Proof.
  unfold PaymentService.createPaymentBody.
  destruct (negb _); [reflexivity|].
  unfold bind at 1, findOrThrow.
  destruct (lookupCustomer st companyId customerId) as [customer|]; [|reflexivity].
  unfold bind at 1.
  destruct (PaymentService.applyToDebts _ _ _ _ _ _) as [e | [r st1]] eqn:Hloop;
    [reflexivity|].
  destruct (applyToDebts_success _ _ _ _ _ _ _ _ Hloop) as (Hsum & Hcs & Hps & Ha & _).
  rewrite Z.add_0_l in Hsum.
  cbv zeta. unfold fromDecimal128, toDecimal128, subtract, add. rewrite Hsum.
  destruct (isGreaterThan _ _); [reflexivity|].
  unfold bind, saveCustomer, savePayment, logAction, ret.
  cbn [payments customers debts auditLogs with_customers with_payments with_auditLogs
       Payment.idempotencyKey].
  rewrite preValidate_built. cbn [negb]. rewrite Hps.
  destruct (idempotencyKeyTaken _ _ _); [reflexivity|].
  simpl. rewrite ?Hcs, ?Ha, ?Hps. reflexivity.
Qed.

(** What a committed [createPayment] has written, in full. *)
Lemma createPayment_commit_store (companyId customerId : nat)
    (paymentData : PaymentService.PaymentData) (userId : nat) (now : Z)
    (st st' : Store) (paymentId : nat) (payment : Payment.t) :
  PaymentService.createPayment companyId customerId paymentData userId now st
  = (st', inr (paymentId, payment)) ->
  let totalApplied := Payment.totalAppliedOf (PaymentService.appliedToDebts paymentData) in
  let credit := PaymentService.amount paymentData - totalApplied in
  let paidOn :=
    match PaymentService.paidAt paymentData with Some t => t | None => now end in
  exists (customer : Customer.t) (r : Decimal * list AuditLog.DebtUpdate) (st1 : Store),
    lookupCustomer st companyId customerId = Some customer /\
    PaymentService.applyToDebts companyId customerId
      (PaymentService.appliedToDebts paymentData) 0 [] st = inr (r, st1) /\
    0 <= PaymentService.amount paymentData /\
    totalApplied <= PaymentService.amount paymentData /\
    idempotencyKeyTaken (PaymentService.idempotencyKey paymentData)
      (nextObjectId (payments st)) (payments st) = false /\
    paymentId = nextObjectId (payments st) /\
    payment
    = Payment.mk companyId customerId (PaymentService.amount paymentData)
        (PaymentService.method paymentData)
        (map (fun app => Payment.AppliedDebt.mk (Payment.AppliedDebt.debtId app)
                           (toDecimal128 (Payment.AppliedDebt.amount app)))
           (PaymentService.appliedToDebts paymentData))
        credit (PaymentService.idempotencyKey paymentData) paidOn userId /\
    st'
    = mkStore
        (<[customerId :=
             Customer.mk (Customer.companyId customer) (Customer.creditLimit customer)
               (Customer.debtBalance customer - totalApplied)
               (Customer.creditBalance customer + credit)
               (Some paidOn) (Customer.version customer + 1)
               (Customer.isActive customer)]> (customers st))
        (debts st1)
        (<[paymentId := payment]> (payments st))
        (auditLogs st ++
           [AuditLog.mk companyId userId PAYMENT_CREATE "Payment" paymentId
              (AuditLog.PaymentCreated customerId (PaymentService.amount paymentData)
                 (PaymentService.method paymentData) (snd r) credit
                 (Customer.debtBalance customer - totalApplied)
                 (Customer.creditBalance customer + credit))
              now]).
Proof.
  intros H totalApplied credit paidOn. apply runTransaction_commit in H.
  rewrite createPaymentBody_run in H.
  destruct (negb _) eqn:Hpos in H; [discriminate|].
  apply isPositive_true in Hpos.
  destruct (lookupCustomer st companyId customerId) as [customer|]; [|discriminate].
  destruct (PaymentService.applyToDebts _ _ _ _ _ _) as [e | [r st1]]; [discriminate|].
  cbv zeta in H.
  destruct (isGreaterThan _ _) eqn:Hgt in H; [discriminate|].
  apply isGreaterThan_false in Hgt.
  destruct (idempotencyKeyTaken _ _ _) eqn:Htaken in H; [discriminate|].
  injection H as <- <- <-.
  exists customer, r, st1. repeat split; auto.
Qed.



(** When some other payment holds the key, the index refuses it. *)
Lemma idempotencyKeyTaken_held (k : string) (self i : nat) (p : Payment.t)
    (ps : gmap nat Payment.t) :
  ps !! i = Some p -> i <> self -> Payment.idempotencyKey p = Some k ->
  idempotencyKeyTaken (Some k) self ps = true.
Proof.
  intros Hp Hne Hk. unfold idempotencyKeyTaken. apply existsb_exists.
  exists (i, p). split.
  - apply list_elem_of_In, elem_of_map_to_list, Hp.
  - simpl. rewrite Hk, String.eqb_refl.
    apply Nat.eqb_neq in Hne. now rewrite Hne.
Qed.

(** A payment under a key that a stored payment holds aborts. *)
Lemma createPayment_key_held_aborts (companyId customerId : nat)
    (paymentData : PaymentService.PaymentData) (userId : nat) (now : Z) (st : Store)
    (k : string) :
  PaymentService.idempotencyKey paymentData = Some k ->
  keyHeld k st ->
  exists err : AppError,
    PaymentService.createPayment companyId customerId paymentData userId now st
    = (st, inl err) /\
    (lookupCustomer st companyId customerId <> None ->
     0 <= PaymentService.amount paymentData ->
     Payment.totalAppliedOf (PaymentService.appliedToDebts paymentData)
     <= PaymentService.amount paymentData ->
     (forall e, PaymentService.applyToDebts companyId customerId
                  (PaymentService.appliedToDebts paymentData) 0 [] st <> inl e) ->
     err = DuplicateKeyError).
Proof.
  intros Hkey (i & p & Hp & Hk).
  unfold PaymentService.createPayment, runTransaction.
  rewrite createPaymentBody_run.
  unfold isPositive, fromDecimal128.
  destruct (Z.leb_spec 0 (PaymentService.amount paymentData)); cbn [negb].
  2:{ exists ValidationError. split; [reflexivity|]. intros _ ?. lia. }
  destruct (lookupCustomer st companyId customerId) as [customer|].
  2:{ exists NotFoundError. split; [reflexivity|]. congruence. }
  destruct (PaymentService.applyToDebts _ _ _ _ _ _) as [e | [r st1]].
  { exists e. split; [reflexivity|]. intros _ _ _ Hloop. now destruct (Hloop e). }
  cbv zeta. unfold isGreaterThan, fromDecimal128.
  destruct (Z.ltb_spec (PaymentService.amount paymentData)
              (Payment.totalAppliedOf (PaymentService.appliedToDebts paymentData))).
  { exists ValidationError. split; [reflexivity|]. intros _ _ ?. lia. }
  rewrite Hkey, (idempotencyKeyTaken_held k _ i p _ Hp); [| |exact Hk].
  - exists DuplicateKeyError. auto.
  - intros ->. rewrite nextObjectId_fresh in Hp. discriminate.
Qed.

(** ** createPayment: effects, errors and invariants *)







(** X7. The unique index on the idempotency key: a [createPayment] under a
    key that a stored payment already holds always fails and changes
    nothing, so no second payment is recorded under the key.  The error is
    the duplicate-key error whenever the same request without the key
    would have been accepted. *)
Theorem createPayment_duplicate_key (companyId customerId : nat)
    (paymentData : PaymentService.PaymentData) (userId : nat) (now : Z) (st : Store)
    (k : string) :
  PaymentService.idempotencyKey paymentData = Some k ->
  keyHeld k st ->
  exists err : AppError,
    PaymentService.createPayment companyId customerId paymentData userId now st
    = (st, inl err) /\
    (forall (st1 : Store) (r : nat * Payment.t),
       PaymentService.createPayment companyId customerId
         (PaymentService.mkPaymentData (PaymentService.amount paymentData)
            (PaymentService.method paymentData)
            (PaymentService.appliedToDebts paymentData)
            (PaymentService.paidAt paymentData) None)
         userId now st = (st1, inr r) ->
       err = DuplicateKeyError).
Proof.
  intros Hkey Hheld.
  destruct (createPayment_key_held_aborts companyId customerId paymentData userId now st
              k Hkey Hheld) as (err & Hfail & Hdup).
  exists err. split; [exact Hfail|].
  intros st1 [paymentId payment] Hok.
  destruct (createPayment_commit_store _ _ _ _ _ _ _ _ _ Hok)
    as (customer & r & st2 & Hc & Hloop & Hpos & Hle & _).
  cbn [PaymentService.amount PaymentService.appliedToDebts] in Hc, Hloop, Hpos, Hle.
  apply Hdup; [congruence | exact Hpos | exact Hle |].
  intros e. rewrite Hloop. discriminate.
Qed.

(** The keyed payment submitted again on the ledger that holds it. *)
Lemma createPayment_duplicate_key_witness :
  exists err : AppError,
    PaymentService.createPayment 1 1 Sample.keyedPayment 7 1000 Sample.paidLedger
    = (Sample.paidLedger, inl err) /\
    (forall (st1 : Store) (r : nat * Payment.t),
       PaymentService.createPayment 1 1
         (PaymentService.mkPaymentData (PaymentService.amount Sample.keyedPayment)
            (PaymentService.method Sample.keyedPayment)
            (PaymentService.appliedToDebts Sample.keyedPayment)
            (PaymentService.paidAt Sample.keyedPayment) None)
         7 1000 Sample.paidLedger = (st1, inr r) ->
       err = DuplicateKeyError).
Proof.
  apply (createPayment_duplicate_key 1 1 Sample.keyedPayment 7 1000 Sample.paidLedger
           Sample.key).
  - reflexivity.
  - exists 0%nat. eexists. split; [vm_compute; reflexivity | reflexivity].
Defined.

(** X8. [createPayment] keeps the idempotency keys of the payments
    collection unique: when no two stored payments share a key before the
    call, none do after it. *)
Theorem createPayment_keeps_keys_unique (companyId customerId : nat)
    (paymentData : PaymentService.PaymentData) (userId : nat) (now : Z)
    (st st' : Store) (r : AppError + nat * Payment.t) :
  keysUnique st ->
  PaymentService.createPayment companyId customerId paymentData userId now st = (st', r) ->
  keysUnique st'.
Proof.
  intros Huniq H. destruct r as [err | [paymentId payment]].
  { apply createPayment_abort in H. now subst st'. }
  destruct (createPayment_commit_store _ _ _ _ _ _ _ _ _ H)
    as (customer & r & st1 & _ & _ & _ & _ & Htaken & Hid & Hpay & ->).
  assert (Hother : forall (i : nat) (p : Payment.t) (k : string),
             payments st !! i = Some p -> Payment.idempotencyKey p = Some k ->
             Payment.idempotencyKey payment = Some k -> False).
  { intros i p k Hp Hk Hnew.
    assert (Hne : i <> nextObjectId (payments st))
      by (intros ->; rewrite nextObjectId_fresh in Hp; discriminate).
    rewrite Hpay in Hnew. cbn [Payment.idempotencyKey] in Hnew.
    rewrite Hnew, (idempotencyKeyTaken_held k _ i p _ Hp Hne Hk) in Htaken.
    discriminate. }
  intros i j p q k. cbn [payments].
  destruct (decide (i = paymentId)) as [-> | Hi];
    destruct (decide (j = paymentId)) as [-> | Hj]; [reflexivity | | |].
  - rewrite lookup_insert_eq, lookup_insert_ne by congruence.
    intros [= <-] Hq Hkp Hkq. destruct (Hother _ _ _ Hq Hkq Hkp).
  - rewrite lookup_insert_eq, lookup_insert_ne by congruence.
    intros Hp [= <-] Hkp Hkq. destruct (Hother _ _ _ Hp Hkp Hkq).
  - rewrite !lookup_insert_ne by congruence. apply Huniq.
Qed.

(** The keyed payment on the sample ledger, which holds no payment. *)
Lemma createPayment_keeps_keys_unique_witness : keysUnique Sample.paidLedger.
Proof.
  apply (createPayment_keeps_keys_unique 1 1 Sample.keyedPayment 7 0 Sample.ledger
           Sample.paidLedger
           (snd (PaymentService.createPayment 1 1 Sample.keyedPayment 7 0 Sample.ledger))).
  - intros i j p q k Hp. vm_compute in Hp. discriminate.
  - apply surjective_pairing.
Defined.

(** ** The invariants of the ledger *)










(** ** createDebt and cancelDebt *)

Lemma missingRequiredFields_true (debtData : DebtService.DebtData) :
  DebtService.missingRequiredFields debtData = true
  <-> DebtService.customerId debtData = None \/
      DebtService.reference debtData = EmptyString \/
      DebtService.totalAmount debtData = 0 \/
      DebtService.dueAt debtData = None \/
      DebtService.items debtData = [].
Proof.
  unfold DebtService.missingRequiredFields.
  destruct (DebtService.customerId debtData) as [c|];
    destruct (String.eqb_spec (DebtService.reference debtData) EmptyString);
    destruct (Z.eqb_spec (DebtService.totalAmount debtData) 0);
    destruct (DebtService.dueAt debtData) as [t|];
    destruct (DebtService.items debtData) as [|i l];
    cbn [orb]; split; intros H; try reflexivity; try discriminate;
    auto 6; intuition congruence.
Qed.

(** What a committed [createDebt] has written, in full. *)
Lemma createDebt_commit_store (companyId : nat) (debtData : DebtService.DebtData)
    (userId : nat) (now : Z) (st st' : Store) (debtId : nat) (debt : Debt.t) :
  DebtService.createDebt companyId debtData userId now st = (st', inr (debtId, debt)) ->
  exists (customerId : nat) (dueAt : Z) (customer : Customer.t),
    DebtService.customerId debtData = Some customerId /\
    DebtService.dueAt debtData = Some dueAt /\
    lookupCustomer st companyId customerId = Some customer /\
    Customer.debtBalance customer + DebtService.totalAmount debtData
    <= Customer.creditLimit customer /\
    debtId = nextObjectId (debts st) /\
    debt
    = Debt.preValidate
        (Debt.set_agingBucket
           (Debt.calculateAgingBucket now
              (Debt.mk companyId customerId (DebtService.reference debtData)
                 (DebtService.totalAmount debtData) (DebtService.totalAmount debtData)
                 OPEN CURRENT dueAt (DebtService.items debtData)))
           (Debt.mk companyId customerId (DebtService.reference debtData)
              (DebtService.totalAmount debtData) (DebtService.totalAmount debtData)
              OPEN CURRENT dueAt (DebtService.items debtData))) /\
    st'
    = mkStore
        (<[customerId :=
             Customer.incrementVersion
               (Customer.set_lastTransactionAt (Some now)
                  (Customer.set_debtBalance
                     (Customer.debtBalance customer + DebtService.totalAmount debtData)
                     customer))]> (customers st))
        (<[debtId := debt]> (debts st))
        (payments st)
        (auditLogs st ++
           [AuditLog.mk companyId userId DEBT_CREATE "Debt" debtId
              (AuditLog.DebtCreated customerId (DebtService.reference debtData)
                 (DebtService.totalAmount debtData) dueAt) now]).
Proof.
  intros H. apply runTransaction_commit in H.
  destruct (DebtService.missingRequiredFields debtData) eqn:Hreq.
  { unfold DebtService.createDebtBody in H. rewrite Hreq in H. discriminate. }
  destruct (missingRequiredFields_false _ Hreq) as (customerId & dueAt & Hcid & Hdue & _).
  destruct (lookupCustomer st companyId customerId) as [customer|] eqn:Hc.
  2:{ unfold DebtService.createDebtBody in H. rewrite Hreq, Hcid, Hdue in H.
      unfold bind at 1, findOrThrow in H. rewrite Hc in H. discriminate. }
  rewrite (createDebtBody_found companyId debtData userId now st
             customerId dueAt customer Hreq Hcid Hdue Hc) in H.
  destruct (Customer.canAcceptDebt _ _) eqn:Hacc; [|discriminate].
  apply canAcceptDebt_spec in Hacc. cbn [negb] in H.
  destruct (negb (schemaValid debtData)); [discriminate|].
  cbv zeta in H. injection H as <- <- <-.
  exists customerId, dueAt, customer. repeat split; auto.
Qed.

(** X11. [createDebt] throws the ValidationError, and changes nothing,
    exactly when a required field is missing: no customer id, an empty
    reference, a total amount of zero, no due date or an empty item
    list. *)
Theorem createDebt_missing_fields (companyId : nat) (debtData : DebtService.DebtData)
    (userId : nat) (now : Z) (st : Store) :
  DebtService.createDebt companyId debtData userId now st = (st, inl ValidationError)
  <-> DebtService.customerId debtData = None \/
      DebtService.reference debtData = EmptyString \/
      DebtService.totalAmount debtData = 0 \/
      DebtService.dueAt debtData = None \/
      DebtService.items debtData = [].
Proof.
  rewrite <- missingRequiredFields_true.
  unfold DebtService.createDebt, runTransaction.
  destruct (DebtService.missingRequiredFields debtData) eqn:Hreq.
  - unfold DebtService.createDebtBody. rewrite Hreq. split; reflexivity.
  - split; [|discriminate]. intros H. exfalso. revert H.
    destruct (missingRequiredFields_false _ Hreq) as (customerId & dueAt & Hcid & Hdue & _).
    destruct (lookupCustomer st companyId customerId) as [customer|] eqn:Hc.
    + rewrite (createDebtBody_found companyId debtData userId now st
                 customerId dueAt customer Hreq Hcid Hdue Hc).
      destruct (negb (Customer.canAcceptDebt _ _)); [intros [=]|].
      destruct (negb (schemaValid debtData)); [intros [=] | cbv zeta; intros [=]].
    + unfold DebtService.createDebtBody. rewrite Hreq, Hcid, Hdue.
      unfold bind at 1, findOrThrow. rewrite Hc. intros [=].
Qed.








(** ** The aging job *)

Lemma updateAgingBuckets_refreshed (companyId : option nat) (now : Z) (st : Store) :
  AgingJob.updateAgingBuckets companyId now st
  = with_debts (refreshed companyId now <$> debts st) st.
Proof. reflexivity. Qed.

Lemma bulkWrite_debts (ops : list (nat * AGING_BUCKETS)) :
  forall st : Store,
    AgingJob.bulkWrite ops st
    = with_debts
        (fold_left
           (fun (m : gmap nat Debt.t) (op : nat * AGING_BUCKETS) =>
              alter (Debt.set_agingBucket (snd op)) (fst op) m)
           ops (debts st))
        st.
Proof.
  induction ops as [|op ops IH]; intros st.
  - now destruct st.
  - unfold AgingJob.bulkWrite in *. cbn [fold_left]. rewrite IH. reflexivity.
Qed.

(** The operations of the job applied one by one: after them a debt of the
    list is the refreshed debt, any other entry of the map is as before. *)
Lemma bulkOps_fold (companyId : option nat) (now : Z) (l : list (nat * Debt.t)) :
  NoDup l.*1 ->
  forall m : gmap nat Debt.t,
    (forall (i : nat) (d : Debt.t), (i, d) ∈ l -> m !! i = Some d) ->
    forall id : nat,
      fold_left
        (fun (m : gmap nat Debt.t) (op : nat * AGING_BUCKETS) =>
           alter (Debt.set_agingBucket (snd op)) (fst op) m)
        (omap (fun entry : nat * Debt.t =>
                 let newBucket := Debt.calculateAgingBucket now (snd entry) in
                 if AgingJob.selected companyId (snd entry)
                    && negb (AGING_BUCKETS_eqb (Debt.agingBucket (snd entry)) newBucket)
                 then Some (fst entry, newBucket)
                 else None) l)
        m !! id
      = if decide (id ∈ l.*1) then refreshed companyId now <$> m !! id else m !! id.
Proof.
  induction l as [|[i d] l IH]; intros Hnd m Hm id.
  - cbn. destruct (decide _) as [Hin|]; [|reflexivity]. now apply elem_of_nil in Hin.
  - cbn [fmap list_fmap fst] in Hnd. apply NoDup_cons in Hnd. destruct Hnd as (Hi & Hnd).
    assert (Hd : m !! i = Some d) by (apply Hm; left).
    assert (Hrest : forall (j : nat) (e : Debt.t), (j, e) ∈ l -> j <> i).
    { intros j e Hin ->. apply Hi, list_elem_of_fmap. now exists (i, e). }
    cbn [omap list_omap snd fst]. cbv zeta.
    destruct (AgingJob.selected companyId d && _) eqn:E.
    + cbn [fold_left snd fst]. rewrite IH; [|exact Hnd|].
      2:{ intros j e Hin. rewrite lookup_alter_ne by (intros ->; now apply (Hrest j e)).
          apply Hm. now right. }
      destruct (decide (id = i)) as [-> | Hne].
      * rewrite lookup_alter_eq, Hd.
        destruct (decide (i ∈ l.*1)) as [Hin|]; [contradiction|].
        destruct (decide (i ∈ ((i, d) :: l).*1)) as [|Hout]; [|destruct Hout; left].
        cbn. unfold refreshed. now rewrite E.
      * rewrite lookup_alter_ne by congruence.
        destruct (decide (id ∈ l.*1)) as [Hin | Hout];
          destruct (decide (id ∈ ((i, d) :: l).*1)) as [Hin' | Hout']; try reflexivity.
        -- destruct Hout'. now right.
        -- cbn in Hin'. apply elem_of_cons in Hin'. destruct Hin'; [congruence | contradiction].
    + rewrite IH; [|exact Hnd|intros j e Hin; apply Hm; now right].
      destruct (decide (id = i)) as [-> | Hne].
      * destruct (decide (i ∈ l.*1)) as [Hin|]; [contradiction|].
        destruct (decide (i ∈ ((i, d) :: l).*1)) as [|Hout]; [|destruct Hout; left].
        rewrite Hd. cbn. unfold refreshed. now rewrite E.
      * destruct (decide (id ∈ l.*1)) as [Hin | Hout];
          destruct (decide (id ∈ ((i, d) :: l).*1)) as [Hin' | Hout']; try reflexivity.
        -- destruct Hout'. now right.
        -- cbn in Hin'. apply elem_of_cons in Hin'. destruct Hin'; [congruence | contradiction].
Qed.

(** A refreshed debt needs no further update at the same time. *)
Lemma refreshed_refreshed (companyId : option nat) (now : Z) (d : Debt.t) :
  AgingJob.selected companyId (refreshed companyId now d)
  && negb (AGING_BUCKETS_eqb (Debt.agingBucket (refreshed companyId now d))
             (Debt.calculateAgingBucket now (refreshed companyId now d)))
  = false.
Proof.
  unfold refreshed.
  destruct (AgingJob.selected companyId d && _) eqn:E; [|exact E].
  replace (Debt.calculateAgingBucket now
             (Debt.set_agingBucket (Debt.calculateAgingBucket now d) d))
    with (Debt.calculateAgingBucket now d) by reflexivity.
  cbn [Debt.agingBucket Debt.set_agingBucket].
  rewrite AGING_BUCKETS_eqb_refl. apply andb_false_r.
Qed.

Lemma contribution_refreshed (companyId : option nat) (now : Z) (customerId : nat)
    (d : Debt.t) :
  contribution customerId (refreshed companyId now d) = contribution customerId d.
Proof. unfold refreshed. now destruct (_ && _). Qed.

Lemma outstandingOf_refreshed (companyId : option nat) (now : Z) (customerId : nat)
    (ds : gmap nat Debt.t) :
  outstandingOf customerId (refreshed companyId now <$> ds) = outstandingOf customerId ds.
Proof.
  induction ds as [|i d ds Hnone IH] using map_ind.
  - now rewrite fmap_empty.
  - rewrite fmap_insert, !outstandingOf_insert_None, IH, contribution_refreshed;
      [reflexivity | exact Hnone | now rewrite lookup_fmap, Hnone].
Qed.

(** X15. [updateAgingBuckets] in one pass and in the two phases of the
    source agree: collecting one update per open or partial debt whose
    stored bucket differs from the recomputed one, and then writing these
    updates one after the other, gives the database in which every debt is
    refreshed. *)
Theorem updateAgingBuckets_is_bulkWrite (companyId : option nat) (now : Z) (st : Store) :
  AgingJob.updateAgingBuckets companyId now st
  = AgingJob.bulkWrite (AgingJob.bulkOps companyId now st) st.
Proof.
  rewrite updateAgingBuckets_refreshed, bulkWrite_debts. f_equal.
  apply map_eq. intros id. unfold AgingJob.bulkOps.
  rewrite (bulkOps_fold companyId now (map_to_list (debts st)));
    [|apply NoDup_fst_map_to_list|intros i d; apply elem_of_map_to_list].
  rewrite lookup_fmap.
  destruct (decide _) as [|Hout]; [reflexivity|].
  destruct (debts st !! id) as [d|] eqn:Hd; [|reflexivity].
  destruct Hout. apply list_elem_of_fmap. exists (id, d).
  split; [reflexivity | now apply elem_of_map_to_list].
Qed.

(** X16. The aging job is idempotent: run a second time at the same
    instant it finds no debt to update (the operation list is empty, the
    modified count is 0) and leaves the database as the first run left
    it. *)
Theorem updateAgingBuckets_idempotent (companyId : option nat) (now : Z) (st : Store) :
  AgingJob.bulkOps companyId now (AgingJob.updateAgingBuckets companyId now st) = [] /\
  AgingJob.modifiedCount companyId now (AgingJob.updateAgingBuckets companyId now st)
  = 0%nat /\
  AgingJob.updateAgingBuckets companyId now (AgingJob.updateAgingBuckets companyId now st)
  = AgingJob.updateAgingBuckets companyId now st.
Proof.
  assert (Hops : AgingJob.bulkOps companyId now
                   (AgingJob.updateAgingBuckets companyId now st) = []).
  { unfold AgingJob.bulkOps. rewrite updateAgingBuckets_refreshed. cbn [debts with_debts].
    assert (Hall : forall entry : nat * Debt.t,
               entry ∈ map_to_list (refreshed companyId now <$> debts st) ->
               exists d : Debt.t, snd entry = refreshed companyId now d).
    { intros [i d'] Hin. apply elem_of_map_to_list in Hin.
      rewrite lookup_fmap in Hin. destruct (debts st !! i) as [d|]; [|discriminate].
      injection Hin as <-. now exists d. }
    induction (map_to_list (refreshed companyId now <$> debts st)) as [|entry l IH];
      [reflexivity|].
    cbn [omap list_omap]. cbv zeta.
    destruct (Hall entry (list_elem_of_here _ _)) as (d & ->).
    rewrite refreshed_refreshed. apply IH.
    intros e He. apply Hall. now right. }
  split; [exact Hops|]. split; [unfold AgingJob.modifiedCount; now rewrite Hops|].
  rewrite !updateAgingBuckets_refreshed. cbn [debts with_debts].
  unfold with_debts. cbn [customers payments auditLogs]. f_equal.
  apply map_eq. intros id. rewrite !lookup_fmap.
  destruct (debts st !! id) as [d|]; [|reflexivity].
  cbn. f_equal. unfold refreshed at 1. now rewrite refreshed_refreshed.
Qed.

(** X17. What one run of the aging job changes: nothing but aging
    buckets.  Customers, payments and the audit trail are untouched; every
    debt keeps all its other fields; a debt that the job selects (open or
    partial, of the company when one is given) ends with the bucket that
    [calculateAgingBucket] gives at the time of the run, any other debt is
    left as it is.  The ledger invariant and the invariant of the debt
    records are therefore kept. *)
Theorem updateAgingBuckets_effect (companyId : option nat) (now : Z) (st : Store) :
  customers (AgingJob.updateAgingBuckets companyId now st) = customers st /\
  payments (AgingJob.updateAgingBuckets companyId now st) = payments st /\
  auditLogs (AgingJob.updateAgingBuckets companyId now st) = auditLogs st /\
  (forall id : nat,
     debts (AgingJob.updateAgingBuckets companyId now st) !! id
     = (fun d : Debt.t =>
          if AgingJob.selected companyId d
          then Debt.set_agingBucket (Debt.calculateAgingBucket now d) d
          else d) <$> debts st !! id) /\
  (balanceInvariant st -> balanceInvariant (AgingJob.updateAgingBuckets companyId now st)) /\
  (debtsSettled st -> debtsSettled (AgingJob.updateAgingBuckets companyId now st)).
Proof.
  rewrite updateAgingBuckets_refreshed. cbn [customers payments auditLogs debts with_debts].
  split; [reflexivity|]. split; [reflexivity|]. split; [reflexivity|].
  assert (Hlookup : forall id : nat,
             (refreshed companyId now <$> debts st) !! id
             = (fun d : Debt.t =>
                  if AgingJob.selected companyId d
                  then Debt.set_agingBucket (Debt.calculateAgingBucket now d) d
                  else d) <$> debts st !! id).
  { intros id. rewrite lookup_fmap.
    destruct (debts st !! id) as [d|]; [|reflexivity].
    cbn. f_equal. unfold refreshed.
    destruct (AgingJob.selected companyId d); [|reflexivity]. cbn [andb].
    destruct (AGING_BUCKETS_eqb _ _) eqn:E; [|reflexivity]. cbn [negb].
    apply AGING_BUCKETS_eqb_eq in E. rewrite <- E. now destruct d. }
  split; [exact Hlookup|]. split.
  - intros Hinv id c Hc. cbn [debts customers with_debts] in *.
    rewrite outstandingOf_refreshed. now apply Hinv.
  - intros Hinv id d'. cbn [debts with_debts]. rewrite Hlookup.
    destruct (debts st !! id) as [d|] eqn:Hd; [|discriminate].
    cbn. intros [= <-]. destruct (Hinv _ _ Hd) as (Hrange & Hstatus).
    destruct (AgingJob.selected companyId d); [|now split].
    split; [exact Hrange|].
    assert (Hcomm : forall b : AGING_BUCKETS,
               Debt.updateStatus (Debt.set_agingBucket b d)
               = Debt.set_agingBucket b (Debt.updateStatus d)).
    { intros b. unfold Debt.updateStatus, fromDecimal128.
      cbn [Debt.status Debt.outstandingAmount Debt.totalAmount Debt.set_agingBucket].
      destruct (DEBT_STATUS_eqb _ _); [reflexivity|].
      destruct (_ =? 0); [reflexivity|]. destruct (_ <? _); reflexivity. }
    now rewrite Hcomm, Hstatus.
Qed.

(** The sample ledger 45 days after the due date of its invoice. *)
Lemma updateAgingBuckets_effect_witness :
  balanceInvariant (AgingJob.updateAgingBuckets (Some 1%nat) (45 * Debt.msPerDay)
                      Sample.ledger) /\
  (Debt.agingBucket
     <$> debts (AgingJob.updateAgingBuckets (Some 1%nat) (45 * Debt.msPerDay)
                  Sample.ledger) !! 10%nat)
  = Some DAYS_31_60.
Proof.
  pose proof (updateAgingBuckets_effect (Some 1%nat) (45 * Debt.msPerDay) Sample.ledger)
    as (_ & _ & _ & Hdebts & Hbalance & _).
  split.
  - apply Hbalance. apply balanceInvariantb_spec. vm_compute. reflexivity.
  - rewrite Hdebts. vm_compute. reflexivity.
Defined.

(** ** pushChanges, changeset by changeset *)

Lemma findOne_Some (entity : string) (entityId companyId : nat) (st : Store)
    (document : SyncService.Document) :
  SyncService.findOne entity entityId companyId st = inr (Some document) ->
  match document with
  | SyncService.CustomerDoc c => lookupCustomer st companyId entityId = Some c
  | SyncService.DebtDoc d => lookupDebtOfCompany st companyId entityId = Some d
  | SyncService.PaymentDoc p =>
    payments st !! entityId = Some p /\ Payment.companyId p = companyId
  end.
Proof.
  unfold SyncService.findOne.
  destruct (String.eqb entity "Customer").
  { destruct (lookupCustomer _ _ _); [|discriminate]. now intros [= <-]. }
  destruct (String.eqb entity "Debt").
  { destruct (lookupDebtOfCompany _ _ _); [|discriminate]. now intros [= <-]. }
  destruct (String.eqb entity "Payment"); [|discriminate].
  destruct (payments st !! entityId) as [p|]; [|discriminate].
  destruct (Nat.eqb_spec (Payment.companyId p) companyId); [|discriminate].
  now intros [= <-].
Qed.

(** The two outcomes of one changeset: a conflict is reported and nothing
    is written, or the document read is written back and one entry is
    added to [applied]. *)
Lemma processChangeset_cases (companyId : nat) (changeset : SyncService.Changeset.t)
    (st st' : Store) (results results' : SyncService.Results) :
  SyncService.processChangeset companyId changeset (st, results) = (st', results') ->
  (st' = st /\
   SyncService.applied results' = SyncService.applied results /\
   exists conflict : SyncService.Conflict.t,
     SyncService.conflicts results' = SyncService.conflicts results ++ [conflict]) \/
  (exists (document : SyncService.Document) (entry : SyncService.Applied.t),
     SyncService.findOne (SyncService.Changeset.entity changeset)
       (SyncService.Changeset.entityId changeset) companyId st = inr (Some document) /\
     SyncService.versionConflict document (SyncService.Changeset.version changeset)
     = false /\
     SyncService.save (SyncService.Changeset.entityId changeset)
       (SyncService.incrementVersion
          (SyncService.objectAssign document (SyncService.Changeset.data changeset))) st
     = inr (tt, st') /\
     SyncService.applied results' = SyncService.applied results ++ [entry] /\
     SyncService.conflicts results' = SyncService.conflicts results).
Proof.
  unfold SyncService.processChangeset.
  destruct (SyncService.findOne _ _ _ _) as [e | [document|]] eqn:Hfind.
  - intros [= <- <-]. left. cbn. eauto.
  - destruct (SyncService.versionConflict _ _) eqn:Hver.
    + intros [= <- <-]. left. cbn. eauto.
    + destruct (SyncService.save _ _ _) as [e | [[] st1]] eqn:Hsave.
      * intros [= <- <-]. left. cbn. eauto.
      * intros [= <- <-]. right. exists document. eexists. cbn. eauto.
  - intros [= <- <-]. left. cbn. eauto.
Qed.

Lemma processChangesets_applied (companyId : nat)
    (changesets : list SyncService.Changeset.t) :
  forall (st st' : Store) (results results' : SyncService.Results),
    processChangesets companyId changesets (st, results) = (st', results') ->
    (length (SyncService.applied results') + length (SyncService.conflicts results')
     = length (SyncService.applied results) + length (SyncService.conflicts results)
       + length changesets)%nat /\
    (length (SyncService.applied results) <= length (SyncService.applied results'))%nat /\
    (length (SyncService.applied results') = length (SyncService.applied results) ->
     st' = st).
Proof.
  induction changesets as [|cs rest IH]; intros st st' results results'.
  - intros [= <- <-]. cbn. repeat split; lia.
  - rewrite processChangesets_cons.
    destruct (SyncService.processChangeset companyId cs (st, results)) as [st1 r1] eqn:E.
    intros Hrest. destruct (IH _ _ _ _ Hrest) as (Hlen & Hle & Hsame).
    destruct (processChangeset_cases _ _ _ _ _ _ E)
      as [(-> & Ha & conflict & Hc) | (document & entry & _ & _ & _ & Ha & Hc)];
      rewrite Ha, Hc in *; rewrite ?length_app in *; cbn [length] in *.
    + repeat split; [lia | lia | exact Hsame].
    + repeat split; [lia | lia | lia].
Qed.

(** X18. [pushChanges] refuses an empty batch with the ValidationError
    and changes nothing; for any other batch it returns a result in which
    every changeset is accounted for exactly once, as applied or as a
    conflict: the two lists together are as long as the batch. *)
Theorem pushChanges_accounts_for_every_changeset (companyId : nat)
    (changesets : list SyncService.Changeset.t) (userId : nat) (st : Store) :
  (changesets = [] /\
   SyncService.pushChanges companyId changesets userId st = (st, inl ValidationError)) \/
  (changesets <> [] /\
   exists (st' : Store) (results : SyncService.Results),
     SyncService.pushChanges companyId changesets userId st = (st', inr results) /\
     (length (SyncService.applied results) + length (SyncService.conflicts results)
      = length changesets)%nat).
Proof.
  destruct changesets as [|cs rest]; [left; split; reflexivity|].
  right. split; [discriminate|].
  unfold SyncService.pushChanges.
  destruct (fold_left _ (cs :: rest) _) as [st' results] eqn:E.
  exists st', results. split; [reflexivity|].
  destruct (processChangesets_applied companyId (cs :: rest) st st'
              (SyncService.mkResults [] []) results E) as (Hlen & _).
  exact Hlen.
Qed.

(** X19. A [pushChanges] that reports no applied changeset has written
    nothing: when [applied] is empty (every changeset ended as a conflict:
    unknown entity, missing document, version mismatch or failed save) the
    database is the one before the call. *)
Theorem pushChanges_conflicts_write_nothing (companyId : nat)
    (changesets : list SyncService.Changeset.t) (userId : nat) (st st' : Store)
    (results : SyncService.Results) :
  SyncService.pushChanges companyId changesets userId st = (st', inr results) ->
  SyncService.applied results = [] ->
  st' = st.
Proof.
  unfold SyncService.pushChanges.
  destruct changesets as [|cs rest]; [discriminate|].
  destruct (fold_left _ (cs :: rest) _) as [st1 r1] eqn:E.
  intros [= <- <-] Hnone.
  destruct (processChangesets_applied companyId (cs :: rest) st st1
              (SyncService.mkResults [] []) r1 E) as (_ & _ & Hsame).
  apply Hsame. now rewrite Hnone.
Qed.

(** The stale customer change on the sample ledger. *)
Lemma pushChanges_conflicts_write_nothing_witness :
  fst (SyncService.pushChanges 1 [Sample.staleCustomerChange] 7 Sample.ledger)
  = Sample.ledger.
Proof.
  apply (pushChanges_conflicts_write_nothing 1 [Sample.staleCustomerChange] 7
           Sample.ledger _
           (SyncService.mkResults []
              [versionMismatch Sample.staleCustomerChange 4
                 (SyncService.CustomerDoc Sample.customer)])).
  - vm_compute. reflexivity.
  - reflexivity.
Defined.

(** ** Writes stay inside the tenant *)

Lemma sameOutside_refl (companyId : nat) (st : Store) : sameOutside companyId st st.
Proof. repeat split; auto. Qed.

Lemma sameOutside_trans (companyId : nat) (st0 st1 st2 : Store) :
  sameOutside companyId st0 st1 -> sameOutside companyId st1 st2 ->
  sameOutside companyId st0 st2.
Proof.
  intros (Hc1 & Hd1 & Hp1) (Hc2 & Hd2 & Hp2). repeat split; eauto.
Qed.

(** The payment loop leaves the debts of every other company alone. *)
Lemma applyToDebts_other_company (companyId customerId : nat)
    (applications : list Payment.AppliedDebt.t) :
  forall (totalApplied : Decimal) (debtUpdates : list AuditLog.DebtUpdate)
         (st st' : Store) (r : Decimal * list AuditLog.DebtUpdate),
    PaymentService.applyToDebts companyId customerId applications
      totalApplied debtUpdates st = inr (r, st') ->
    forall (id : nat) (d : Debt.t),
      debts st !! id = Some d -> Debt.companyId d <> companyId ->
      debts st' !! id = Some d.
Proof.
  induction applications as [|a rest IH]; intros tot ups st st' r.
  - rewrite applyToDebts_nil. now intros [= _ <-].
  - rewrite applyToDebts_cons.
    destruct (negb _); [discriminate|].
    destruct (lookupDebt _ _ _ _) as [debt|] eqn:Hfind; [|discriminate].
    destruct (isGreaterThan _ _); [discriminate|].
    cbv zeta. intros Hrest id d Hd Hother.
    apply lookupDebt_Some in Hfind. destruct Hfind as (Hdebt & Hcompany & _).
    apply (IH _ _ _ _ _ Hrest); [|exact Hother].
    cbn [debts with_debts]. rewrite lookup_insert_ne; [exact Hd|].
    intros Heq. rewrite Heq in Hdebt. congruence.
Qed.

(** Writing back a document that was found in the company leaves the
    documents of every other company alone. *)
Lemma save_sameOutside (companyId entityId : nat) (entity : string)
    (document : SyncService.Document) (data : list SyncService.Property)
    (st st' : Store) :
  SyncService.findOne entity entityId companyId st = inr (Some document) ->
  SyncService.save entityId
    (SyncService.incrementVersion (SyncService.objectAssign document data)) st
  = inr (tt, st') ->
  sameOutside companyId st st'.
Proof.
  intros Hfind Hsave. apply findOne_Some in Hfind.
  destruct document as [c | d | p]; cbn in Hsave.
  - apply lookupCustomer_Some in Hfind. destruct Hfind as (Hc & Hcompany).
    unfold saveCustomer in Hsave. injection Hsave as <-.
    repeat split; cbn; auto.
    intros id c' Hc' Hother. rewrite lookup_insert_ne; [exact Hc'|].
    intros Heq. rewrite Heq in Hc. congruence.
  - apply lookupDebtOfCompany_Some in Hfind. destruct Hfind as (Hd & Hcompany).
    unfold bind, saveDebt, ret in Hsave. injection Hsave as <-.
    repeat split; cbn; auto.
    intros id d' Hd' Hother. rewrite lookup_insert_ne; [exact Hd'|].
    intros Heq. rewrite Heq in Hd. congruence.
  - destruct Hfind as (Hp & Hcompany).
    unfold savePayment in Hsave.
    destruct (negb _); [discriminate|].
    destruct (idempotencyKeyTaken _ _ _); [discriminate|].
    injection Hsave as <-.
    repeat split; cbn; auto.
    intros id p' Hp' Hother. rewrite lookup_insert_ne; [exact Hp'|].
    intros Heq. rewrite Heq in Hp. congruence.
Qed.

Lemma processChangesets_sameOutside (companyId : nat)
    (changesets : list SyncService.Changeset.t) :
  forall (st st' : Store) (results results' : SyncService.Results),
    processChangesets companyId changesets (st, results) = (st', results') ->
    sameOutside companyId st st'.
Proof.
  induction changesets as [|cs rest IH]; intros st st' results results'.
  - intros [= <- _]. apply sameOutside_refl.
  - rewrite processChangesets_cons.
    destruct (SyncService.processChangeset companyId cs (st, results)) as [st1 r1] eqn:E.
    intros Hrest. apply sameOutside_trans with st1; [|exact (IH _ _ _ _ Hrest)].
    destruct (processChangeset_cases _ _ _ _ _ _ E)
      as [(-> & _) | (document & entry & Hfind & _ & Hsave & _)].
    + apply sameOutside_refl.
    + exact (save_sameOutside _ _ _ _ _ _ _ Hfind Hsave).
Qed.

(** X20. Tenant isolation of the writes: [createPayment], [createDebt]
    and [pushChanges], called for one company, leave every customer, debt
    and payment of every other company exactly as it was, whatever ids the
    request names. *)
Theorem writes_stay_inside_tenant (companyId : nat) (st : Store) :
  (forall customerId paymentData userId now st' r,
     PaymentService.createPayment companyId customerId paymentData userId now st
     = (st', r) ->
     sameOutside companyId st st') /\
  (forall debtData userId now st' r,
     DebtService.createDebt companyId debtData userId now st = (st', r) ->
     sameOutside companyId st st') /\
  (forall changesets userId st' r,
     SyncService.pushChanges companyId changesets userId st = (st', r) ->
     sameOutside companyId st st').
Proof.
  split; [|split].
  - intros customerId paymentData userId now st' [err | [paymentId payment]] H.
    { apply createPayment_abort in H. subst st'. apply sameOutside_refl. }
    destruct (createPayment_commit_store _ _ _ _ _ _ _ _ _ H)
      as (customer & r & st1 & Hc & Hloop & _ & _ & _ & Hid & _ & ->).
    apply lookupCustomer_Some in Hc. destruct Hc as (Hc & Hcompany).
    repeat split; cbn [customers debts payments].
    + intros id c Hc' Hother. rewrite lookup_insert_ne; [exact Hc'|].
      intros Heq. rewrite Heq in Hc. congruence.
    + exact (applyToDebts_other_company _ _ _ _ _ _ _ _ Hloop).
    + intros id p Hp _. rewrite lookup_insert_ne; [exact Hp|].
      intros Heq. rewrite Hid in Heq. rewrite <- Heq, nextObjectId_fresh in Hp.
      discriminate.
  - intros debtData userId now st' [err | [debtId debt]] H.
    { apply runTransaction_abort in H. destruct H as [-> _]. apply sameOutside_refl. }
    destruct (createDebt_commit_store _ _ _ _ _ _ _ _ H)
      as (customerId & dueAt & customer & _ & _ & Hc & _ & Hid & _ & ->).
    apply lookupCustomer_Some in Hc. destruct Hc as (Hc & Hcompany).
    repeat split; cbn [customers debts payments]; auto.
    + intros id c Hc' Hother. rewrite lookup_insert_ne; [exact Hc'|].
      intros Heq. rewrite Heq in Hc. congruence.
    + intros id d Hd _. rewrite lookup_insert_ne; [exact Hd|].
      intros Heq. rewrite Hid in Heq. rewrite <- Heq, nextObjectId_fresh in Hd.
      discriminate.
  - intros changesets userId st' r. unfold SyncService.pushChanges.
    destruct changesets as [|cs rest]; [intros [= <- _]; apply sameOutside_refl|].
    destruct (fold_left _ (cs :: rest) _) as [st1 r1] eqn:E.
    intros [= <- _].
    exact (processChangesets_sameOutside companyId (cs :: rest) st st1 _ r1 E).
Qed.

(** A payment of company 1 on the shared ledger leaves the customer of
    company 2 as it is. *)
Lemma writes_stay_inside_tenant_witness :
  customers
    (fst (PaymentService.createPayment 1 1 Sample.splitPayment 7 0 Sample.sharedLedger))
    !! 2%nat
  = Some Sample.otherCustomer.
Proof.
  apply (proj1 (proj1 (writes_stay_inside_tenant 1 Sample.sharedLedger)
                  1%nat Sample.splitPayment 7%nat 0 _ _ (surjective_pairing _))
           2%nat Sample.otherCustomer).
  - reflexivity.
  - intros H. discriminate H.
Defined.

(** ** A changeset is applied once *)

Lemma assignCustomer_fold (data : list SyncService.Property) :
  forall c : Customer.t,
    Customer.companyId (fold_left SyncService.assignCustomer data c)
    = Customer.companyId c /\
    (leavesVersion data ->
     Customer.version (fold_left SyncService.assignCustomer data c) = Customer.version c).
Proof.
  induction data as [|p data IH]; intros c; [now split|].
  cbn [fold_left]. destruct (IH (SyncService.assignCustomer c p)) as (Hcompany & Hversion).
  split.
  - rewrite Hcompany. now destruct p.
  - intros Hleaves. rewrite Hversion.
    + destruct p; try reflexivity. destruct (Hleaves v). now left.
    + intros v Hin. apply (Hleaves v). now right.
Qed.

(** X21. A customer changeset is applied at most once: when a changeset
    that does not assign the version key is pushed with the version the
    server holds, it is applied and the stored version becomes that
    version plus one; pushing the same changeset again is then answered
    with a version-mismatch conflict that carries the new server version,
    and writes nothing. *)
Theorem pushChanges_replay_conflicts (companyId userId : nat)
    (changeset : SyncService.Changeset.t) (st : Store) (customer : Customer.t) :
  SyncService.Changeset.entity changeset = "Customer" ->
  lookupCustomer st companyId (SyncService.Changeset.entityId changeset) = Some customer ->
  Customer.version customer = SyncService.Changeset.version changeset ->
  leavesVersion (SyncService.Changeset.data changeset) ->
  exists (st1 : Store) (customer1 : Customer.t),
    SyncService.pushChanges companyId [changeset] userId st
    = (st1,
       inr (SyncService.mkResults
              [SyncService.Applied.mk (SyncService.Changeset.entityId changeset)
                 "Customer" (Some (SyncService.Changeset.version changeset + 1))]
              [])) /\
    lookupCustomer st1 companyId (SyncService.Changeset.entityId changeset)
    = Some customer1 /\
    Customer.version customer1 = SyncService.Changeset.version changeset + 1 /\
    SyncService.pushChanges companyId [changeset] userId st1
    = (st1,
       inr (SyncService.mkResults []
              [versionMismatch changeset (SyncService.Changeset.version changeset + 1)
                 (SyncService.CustomerDoc customer1)])).
Proof.
  intros Hentity Hc Hversion Hleaves.
  destruct (assignCustomer_fold (SyncService.Changeset.data changeset) customer)
    as (Hcompany & Hkept).
  specialize (Hkept Hleaves).
  pose proof (lookupCustomer_Some _ _ _ _ Hc) as (_ & Hco).
  set (customer1 :=
         Customer.incrementVersion
           (fold_left SyncService.assignCustomer (SyncService.Changeset.data changeset)
              customer)).
  set (st1 :=
         with_customers
           (<[SyncService.Changeset.entityId changeset := customer1]> (customers st)) st).
  assert (Hc1 : lookupCustomer st1 companyId (SyncService.Changeset.entityId changeset)
                = Some customer1).
  { unfold lookupCustomer, st1. cbn [customers with_customers].
    rewrite lookup_insert_eq. unfold customer1.
    cbn [Customer.companyId Customer.incrementVersion Customer.set_version].
    now rewrite Hcompany, Hco, Nat.eqb_refl. }
  assert (Hv1 : Customer.version customer1 = SyncService.Changeset.version changeset + 1).
  { unfold customer1.
    cbn [Customer.version Customer.incrementVersion Customer.set_version].
    now rewrite Hkept, Hversion. }
  exists st1, customer1.
  split; [|split; [exact Hc1|split; [exact Hv1|]]].
  - unfold SyncService.pushChanges. cbn [fold_left].
    unfold SyncService.processChangeset, SyncService.findOne.
    rewrite Hentity. cbn [String.eqb Ascii.eqb Bool.eqb andb]. rewrite Hc.
    cbn [fmap option_fmap option_map].
    unfold SyncService.versionConflict. cbn [SyncService.documentVersion].
    rewrite Hversion, Z.eqb_refl. cbn [negb].
    cbn [SyncService.objectAssign SyncService.incrementVersion SyncService.save
         saveCustomer SyncService.versionAfter SyncService.documentVersion].
    fold customer1. rewrite Hv1. reflexivity.
  - unfold SyncService.pushChanges. cbn [fold_left].
    rewrite (processChangeset_version_conflict companyId changeset st1
               (SyncService.mkResults [] []) (SyncService.CustomerDoc customer1)
               (SyncService.Changeset.version changeset + 1)).
    + reflexivity.
    + unfold SyncService.findOne. rewrite Hentity.
      cbn [String.eqb Ascii.eqb Bool.eqb andb]. now rewrite Hc1.
    + cbn [SyncService.documentVersion]. now rewrite Hv1.
    + lia.
Qed.

(** A change of the credit limit of the sample customer, pushed with the
    version the server holds. *)
Lemma pushChanges_replay_conflicts_witness :
  exists (st1 : Store) (customer1 : Customer.t),
    SyncService.pushChanges 1
      [SyncService.Changeset.mk "Customer" 1 4
         [SyncService.Set_creditLimit (Sample.units 5000)]] 7 Sample.ledger
    = (st1, inr (SyncService.mkResults [SyncService.Applied.mk 1 "Customer" (Some (4 + 1))]
                   [])) /\
    lookupCustomer st1 1 1 = Some customer1 /\
    Customer.version customer1 = 4 + 1 /\
    SyncService.pushChanges 1
      [SyncService.Changeset.mk "Customer" 1 4
         [SyncService.Set_creditLimit (Sample.units 5000)]] 7 st1
    = (st1,
       inr (SyncService.mkResults []
              [versionMismatch
                 (SyncService.Changeset.mk "Customer" 1 4
                    [SyncService.Set_creditLimit (Sample.units 5000)])
                 (4 + 1) (SyncService.CustomerDoc customer1)])).
Proof.
  apply (pushChanges_replay_conflicts 1 7
           (SyncService.Changeset.mk "Customer" 1 4
              [SyncService.Set_creditLimit (Sample.units 5000)])
           Sample.ledger Sample.customer).
  - reflexivity.
  - reflexivity.
  - reflexivity.
  - intros v [H | []]. discriminate H.
Defined.

(** ** getChanges *)

Lemma insertByTimestamp_In (log x : AuditLog.t) (sorted : list AuditLog.t) :
  In x (SyncService.insertByTimestamp log sorted) <-> x = log \/ In x sorted.
Proof.
  induction sorted as [|first rest IH]; cbn [SyncService.insertByTimestamp].
  - cbn. intuition congruence.
  - destruct (_ <? _); cbn [In]; [intuition congruence|].
    rewrite IH. intuition congruence.
Qed.

Lemma sortByTimestamp_In (x : AuditLog.t) (logs : list AuditLog.t) :
  In x (SyncService.sortByTimestamp logs) <-> In x logs.
Proof.
  unfold SyncService.sortByTimestamp.
  induction logs as [|log logs IH]; [reflexivity|].
  cbn [fold_right In]. rewrite insertByTimestamp_In, IH. intuition congruence.
Qed.

Lemma insertByTimestamp_ascending (log : AuditLog.t) (sorted : list AuditLog.t) :
  ascending (map AuditLog.timestamp sorted) ->
  ascending (map AuditLog.timestamp (SyncService.insertByTimestamp log sorted)).
Proof.
  induction sorted as [|first rest IH]; cbn [SyncService.insertByTimestamp].
  - intros _. cbn. split; [intros t' []|exact I].
  - intros Hsorted. pose proof Hsorted as (Hfirst & Hrest). fold ascending in Hrest.
    destruct (Z.ltb_spec (AuditLog.timestamp log) (AuditLog.timestamp first)).
    + cbn [map ascending]. split; [|exact Hsorted].
      intros t' [<- | Hin]; [lia|]. specialize (Hfirst t' Hin). lia.
    + cbn [map ascending]. split; [|exact (IH Hrest)].
      intros t' Hin. apply in_map_iff in Hin. destruct Hin as (x & <- & Hx).
      apply insertByTimestamp_In in Hx. destruct Hx as [-> | Hx]; [lia|].
      apply Hfirst, in_map, Hx.
Qed.

Lemma sortByTimestamp_ascending (logs : list AuditLog.t) :
  ascending (map AuditLog.timestamp (SyncService.sortByTimestamp logs)).
Proof.
  unfold SyncService.sortByTimestamp.
  induction logs as [|log logs IH]; [exact I|].
  cbn [fold_right]. now apply insertByTimestamp_ascending.
Qed.

Lemma limitTo_In {A : Type} (limit : nat) (l : list A) (x : A) :
  In x (SyncService.limitTo limit l) -> In x l.
Proof.
  unfold SyncService.limitTo. destruct limit; [trivial|].
  intros H. apply list_elem_of_In. apply list_elem_of_In in H.
  now apply (subseteq_take (S limit) l).
Qed.

Lemma take_ascending (n : nat) (timestamps : list Z) :
  ascending timestamps -> ascending (take n timestamps).
Proof.
  revert n. induction timestamps as [|t rest IH]; intros [|n]; cbn; try tauto.
  intros (Hfirst & Hrest). split; [|now apply IH].
  intros t' Hin. apply Hfirst.
  apply list_elem_of_In. apply list_elem_of_In in Hin.
  now apply (subseteq_take n rest).
Qed.

Lemma limitTo_ascending (limit : nat) (logs : list AuditLog.t) :
  ascending (map AuditLog.timestamp logs) ->
  ascending (map AuditLog.timestamp (SyncService.limitTo limit logs)).
Proof.
  unfold SyncService.limitTo. destruct limit; [trivial|].
  intros H. change (map AuditLog.timestamp (take (S limit) logs))
    with (AuditLog.timestamp <$> take (S limit) logs).
  rewrite fmap_take. now apply take_ascending.
Qed.

(** Short of its limit, the page is the whole list. *)
Lemma limitTo_all {A : Type} (limit : nat) (l : list A) :
  (limit <=? length (SyncService.limitTo limit l))%nat = false ->
  SyncService.limitTo limit l = l.
Proof.
  unfold SyncService.limitTo. destruct limit; [discriminate|].
  intros H. apply Nat.leb_gt in H. rewrite length_take in H.
  apply take_ge. lia.
Qed.

Lemma ascending_last (timestamps : list Z) (t : Z) :
  ascending timestamps -> last timestamps = Some t ->
  forall t' : Z, In t' timestamps -> t' <= t.
Proof.
  induction timestamps as [|t0 rest IH]; [discriminate|].
  intros (Hfirst & Hrest) Hlast t' Hin. rewrite last_cons in Hlast.
  destruct (last rest) as [t1|] eqn:E.
  - injection Hlast as ->. destruct Hin as [<- | Hin]; [|now apply IH].
    apply Hfirst. apply last_Some in E. destruct E as (l' & ->).
    apply in_or_app. right. now left.
  - injection Hlast as ->.
    destruct rest as [|z rest'];
      [|rewrite last_cons in E; destruct (last rest'); discriminate].
    destruct Hin as [<- | []]. lia.
Qed.

(** X22. [getChanges] refuses a missing or invalid [since] with the
    ValidationError.  For a valid one it returns a page in which every
    change comes from an audit entry of the company that is strictly later
    than [since], the changes are in ascending order of time, there are at
    most [limit] of them (for a limit other than 0), and [lastTimestamp]
    is at least [since] and at least the time of every change returned.
    When [hasMore] is false the page is complete: every audit entry of the
    company later than [since] is in it. *)
Theorem getChanges_page (companyId : nat) (sinceDate : Z) (limit : nat) (st : Store) :
  SyncService.getChanges companyId None limit st = inl ValidationError /\
  exists page : SyncService.ChangesPage,
    SyncService.getChanges companyId (Some sinceDate) limit st = inr page /\
    SyncService.since page = sinceDate /\
    (forall change : SyncService.Change.t,
       In change (SyncService.changes page) ->
       sinceDate < SyncService.Change.timestamp change /\
       SyncService.Change.timestamp change <= SyncService.lastTimestamp page /\
       exists log : AuditLog.t,
         In log (auditLogs st) /\ AuditLog.companyId log = companyId /\
         change = changeOf log) /\
    ascending (map SyncService.Change.timestamp (SyncService.changes page)) /\
    (limit <> 0%nat -> (length (SyncService.changes page) <= limit)%nat) /\
    sinceDate <= SyncService.lastTimestamp page /\
    (SyncService.hasMore page = false ->
     forall log : AuditLog.t,
       In log (auditLogs st) -> AuditLog.companyId log = companyId ->
       sinceDate < AuditLog.timestamp log ->
       In (changeOf log) (SyncService.changes page)).
Proof.
  split; [reflexivity|].
  unfold SyncService.getChanges. fold changeOf.
  set (matching :=
         List.filter
           (fun log : AuditLog.t =>
              Nat.eqb (AuditLog.companyId log) companyId
              && (sinceDate <? AuditLog.timestamp log)) (auditLogs st)).
  set (logs := SyncService.limitTo limit (SyncService.sortByTimestamp matching)).
  assert (Hlogs : forall log : AuditLog.t,
             In log logs ->
             In log (auditLogs st) /\ AuditLog.companyId log = companyId /\
             sinceDate < AuditLog.timestamp log).
  { intros log Hin. apply limitTo_In, sortByTimestamp_In, filter_In in Hin.
    destruct Hin as (Hin & Hp). apply andb_prop in Hp. destruct Hp as (Hc & Ht).
    apply Nat.eqb_eq in Hc. apply Z.ltb_lt in Ht. auto. }
  assert (Htimes : map SyncService.Change.timestamp (map changeOf logs)
                   = map AuditLog.timestamp logs)
    by (rewrite map_map; reflexivity).
  assert (Hasc : ascending (map AuditLog.timestamp logs))
    by apply limitTo_ascending, sortByTimestamp_ascending.
  assert (Hlast : forall change : SyncService.Change.t,
             In change (map changeOf logs) ->
             SyncService.Change.timestamp change
             <= match last (map changeOf logs) with
                | Some change => SyncService.Change.timestamp change
                | None => sinceDate
                end).
  { intros change Hin.
    destruct (last (map changeOf logs)) as [final|] eqn:E.
    - apply (ascending_last (map AuditLog.timestamp logs));
        [exact Hasc | | rewrite <- Htimes; now apply in_map].
      rewrite <- Htimes.
      change (map SyncService.Change.timestamp (map changeOf logs))
        with (SyncService.Change.timestamp <$> map changeOf logs).
      now rewrite fmap_last, E.
    - destruct (map changeOf logs); [destruct Hin | now rewrite last_cons in E;
                                                    destruct (last l)]. }
  eexists. split; [reflexivity|].
  cbn [SyncService.since SyncService.changes SyncService.hasMore
       SyncService.lastTimestamp].
  split; [reflexivity|]. split; [|split; [|split; [|split]]].
  - intros change Hin. pose proof (Hlast change Hin) as Hle.
    apply in_map_iff in Hin. destruct Hin as (log & <- & Hin).
    destruct (Hlogs log Hin) as (Hst & Hc & Ht).
    split; [exact Ht|]. split; [exact Hle|]. now exists log.
  - now rewrite Htimes.
  - intros Hlimit. rewrite length_map. unfold logs, SyncService.limitTo.
    destruct limit; [contradiction|]. rewrite length_take. lia.
  - destruct (last (map changeOf logs)) as [final|] eqn:E; [|lia].
    apply last_Some in E. destruct E as (l' & E).
    assert (Hin : In final (map changeOf logs))
      by (rewrite E; apply in_or_app; right; now left).
    apply in_map_iff in Hin. destruct Hin as (log & <- & Hin).
    destruct (Hlogs log Hin) as (_ & _ & Ht). cbn. lia.
  - intros Hmore log Hin Hc Ht. apply in_map.
    rewrite length_map in Hmore. unfold logs. rewrite (limitTo_all _ _ Hmore).
    apply sortByTimestamp_In, filter_In. split; [exact Hin|].
    apply andb_true_intro. split; [now apply Nat.eqb_eq | now apply Z.ltb_lt].
Qed.

(** The sample ledger after the keyed payment, pulled with a limit of 10. *)
Lemma getChanges_page_witness :
  exists page : SyncService.ChangesPage,
    SyncService.getChanges 1 (Some (-1)) 10 Sample.paidLedger = inr page /\
    (length (SyncService.changes page) <= 10)%nat.
Proof.
  destruct (proj2 (getChanges_page 1 (-1) 10 Sample.paidLedger))
    as (page & Hrun & _ & _ & _ & Hlimit & _).
  exists page. split; [exact Hrun | apply Hlimit; discriminate].
Defined.

(** ** The payment route: failures and repeated keys *)

Lemma statusCode_not_2xx (e : AppError) :
  ~ (200 <= Idempotency.statusCode e < 300).
Proof. destruct e; cbn; lia. Qed.

(** The handlers behind the middleware change the database only when they
    answer 201. *)
Lemma next_failure (req : Idempotency.Request) (idempotencyKey : string) (now : Z)
    (st st' : Store) (response : Idempotency.Response) :
  Idempotency.next req idempotencyKey now st = (st', response) ->
  ~ (200 <= Idempotency.status response < 300) ->
  st' = st.
Proof.
  unfold Idempotency.next.
  destruct (negb (Idempotency.createPaymentSchema req)); [now intros [= <- _]|].
  destruct (negb (Idempotency.authorize req)); [now intros [= <- _]|].
  destruct (PaymentService.createPayment _ _ _ _ _ _) as [st1 [e | [_id payment]]] eqn:E.
  - intros [= <- _] _. now apply createPayment_abort in E.
  - intros [= _ <-] Hfail. exfalso. apply Hfail. cbn. lia.
Qed.

(** After a 2xx answer of the handlers a stored payment holds the key. *)
Lemma next_success (req : Idempotency.Request) (idempotencyKey : string) (now : Z)
    (st st' : Store) (response : Idempotency.Response) :
  Idempotency.next req idempotencyKey now st = (st', response) ->
  200 <= Idempotency.status response < 300 ->
  keyHeld idempotencyKey st'.
Proof.
  unfold Idempotency.next.
  destruct (negb (Idempotency.createPaymentSchema req));
    [intros [= _ <-] H; now destruct (statusCode_not_2xx _ H)|].
  destruct (negb (Idempotency.authorize req));
    [intros [= _ <-] H; now destruct (statusCode_not_2xx _ H)|].
  destruct (PaymentService.createPayment _ _ _ _ _ _) as [st1 [e | [_id payment]]] eqn:E.
  - intros [= _ <-] H. now destruct (statusCode_not_2xx _ H).
  - intros [= <- _] _.
    destruct (createPayment_commit_store _ _ _ _ _ _ _ _ _ E)
      as (customer & r & st2 & _ & _ & _ & _ & _ & _ & Hpay & ->).
    exists _id, payment. cbn [payments]. split; [apply lookup_insert_eq|].
    rewrite Hpay. reflexivity.
Qed.

(** With the key held by a stored payment the handlers change nothing. *)
Lemma next_key_held (req : Idempotency.Request) (idempotencyKey : string) (now : Z)
    (st : Store) :
  keyHeld idempotencyKey st ->
  fst (Idempotency.next req idempotencyKey now st) = st.
Proof.
  intros Hheld. unfold Idempotency.next.
  destruct (negb (Idempotency.createPaymentSchema req)); [reflexivity|].
  destruct (negb (Idempotency.authorize req)); [reflexivity|].
  destruct (createPayment_key_held_aborts (Idempotency.companyId req)
              (Idempotency.customerId req)
              (PaymentService.mkPaymentData (Idempotency.amount req)
                 (Idempotency.method req) (Idempotency.appliedToDebts req)
                 (Idempotency.paidAt req) (Some idempotencyKey))
              (Idempotency.userId req) now st idempotencyKey eq_refl Hheld)
    as (err & -> & _).
  reflexivity.
Qed.

(** X23. A request to the payment route that is not answered with a 2xx
    status has changed nothing at all: the database and the cache are the
    ones before the request.  This covers a missing or malformed key, a
    body that fails validation, a role that is not authorized and every
    error of [createPayment]. *)
Theorem idempotency_failure_changes_nothing (req : Idempotency.Request) (now : Z)
    (setexOk : bool) (w w1 : Idempotency.World) (response : Idempotency.Response) :
  Idempotency.idempotency req now setexOk w = (w1, response) ->
  ~ (200 <= Idempotency.status response < 300) ->
  w1 = w.
Proof.
  intros Hrun Hfail.
  pose proof (idempotency_failure_not_cached _ _ _ _ _ _ Hrun Hfail) as Hcache.
  unfold Idempotency.idempotency in Hrun.
  destruct (Idempotency.idempotencyKeyHeader req) as [idempotencyKey|];
    [|now injection Hrun as <- _].
  destruct (negb _); [now injection Hrun as <- _|].
  destruct (Idempotency.redisGet _ _ _) as [cached|]; [now injection Hrun as <- _|].
  destruct (Idempotency.next _ _ _ _) as [st' response'] eqn:Hnext.
  injection Hrun as <- <-. cbn [Idempotency.redis] in Hcache.
  rewrite Hcache, (next_failure _ _ _ _ _ _ Hnext Hfail). now destruct w.
Qed.

(** The first submission of the sample: an unknown customer, answered
    404. *)
Lemma idempotency_failure_changes_nothing_witness :
  fst (Idempotency.idempotency Sample.firstSubmission 0 true Sample.world) = Sample.world.
Proof.
  apply (idempotency_failure_changes_nothing Sample.firstSubmission 0 true Sample.world
           _ (Idempotency.mkResponse 404 (Idempotency.Failure NotFoundError))).
  - vm_compute. reflexivity.
  - cbn. lia.
Defined.

(** X24. At most one payment per key, whatever happens to the cache: once
    a request under a key has been executed and answered with a 2xx
    status, a later request under the same key leaves the database as that
    first execution left it, even when the cache no longer answers for the
    key (the entry has expired, was never stored, or the cache was
    emptied) and whatever the body of the later request is. *)
Theorem idempotency_at_most_one_payment (first second : Idempotency.Request)
    (now now' : Z) (setexOk setexOk' : bool) (w w1 w1' : Idempotency.World)
    (idempotencyKey : string) (response : Idempotency.Response) :
  Idempotency.idempotencyKeyHeader first = Some idempotencyKey ->
  Idempotency.idempotencyKeyHeader second = Some idempotencyKey ->
  Idempotency.redisGet (IDEMPOTENCY_KEY_PREFIX ++ idempotencyKey)%string now
    (Idempotency.redis w) = None ->
  Idempotency.idempotency first now setexOk w = (w1, response) ->
  200 <= Idempotency.status response < 300 ->
  Idempotency.db w1' = Idempotency.db w1 ->
  Idempotency.db (fst (Idempotency.idempotency second now' setexOk' w1'))
  = Idempotency.db w1.
Proof.
  intros Hfirst Hsecond Hmiss Hrun Hok Hdb.
  unfold Idempotency.idempotency in Hrun. rewrite Hfirst, Hmiss in Hrun.
  destruct (negb (Idempotency.isValidIdempotencyKey idempotencyKey)) eqn:Hvalid.
  { injection Hrun as _ <-. now destruct (statusCode_not_2xx _ Hok). }
  destruct (Idempotency.next first idempotencyKey now (Idempotency.db w))
    as [st' response'] eqn:Hnext.
  injection Hrun as <- <-. cbn [Idempotency.db] in *.
  pose proof (next_success _ _ _ _ _ _ Hnext Hok) as Hheld.
  unfold Idempotency.idempotency. rewrite Hsecond, Hvalid.
  destruct (Idempotency.redisGet _ now' (Idempotency.redis w1')) as [cached|];
    [exact Hdb|].
  pose proof (next_key_held second idempotencyKey now' (Idempotency.db w1')) as Hkept.
  destruct (Idempotency.next second idempotencyKey now' (Idempotency.db w1'))
    as [st'' response''].
  cbn [fst Idempotency.db] in *. rewrite Hkept; [exact Hdb|]. now rewrite Hdb.
Qed.

(** The payment of the sample under its key, and the same request two
    days later on an empty cache. *)
Lemma idempotency_at_most_one_payment_witness :
  Idempotency.db
    (fst (Idempotency.idempotency Sample.secondSubmission 172800000 true
            (Idempotency.mkWorld
               (Idempotency.db
                  (fst (Idempotency.idempotency Sample.secondSubmission 0 true
                          Sample.world)))
               ∅)))
  = Idempotency.db (fst (Idempotency.idempotency Sample.secondSubmission 0 true
                           Sample.world)).
Proof.
  apply (idempotency_at_most_one_payment Sample.secondSubmission Sample.secondSubmission
           0 172800000 true true Sample.world _ _ Sample.key
           (snd (Idempotency.idempotency Sample.secondSubmission 0 true Sample.world))).
  - reflexivity.
  - reflexivity.
  - reflexivity.
  - apply surjective_pairing.
  - vm_compute. split; [intros H; discriminate H | reflexivity].
  - reflexivity.
Defined.

(** ** The shape of an idempotency key *)

Lemma append_cons (c : ascii) (s r : string) :
  (String c s ++ r)%string = String c (s ++ r)%string.
Proof. reflexivity. Qed.

Lemma append_empty (s : string) : (s ++ EmptyString)%string = s.
Proof. induction s as [|c s IH]; [reflexivity | now rewrite append_cons, IH]. Qed.

Lemma hexRun_inv (n : nat) :
  forall s r : string,
    Idempotency.hexRun n s = Some r ->
    exists p : string, s = (p ++ r)%string /\ hexGroup n p.
Proof.
  induction n as [|n IH]; intros s r; cbn [Idempotency.hexRun].
  - intros [= ->]. exists EmptyString. repeat split.
  - destruct s as [|c rest]; [discriminate|].
    destruct (Idempotency.isHexDigit c) eqn:Hc; [|discriminate].
    intros H. destruct (IH _ _ H) as (p & -> & Hlen & Hhex).
    exists (String c p). repeat split; cbn; [now rewrite Hlen | now rewrite Hc, Hhex].
Qed.

Lemma hexRun_app (n : nat) :
  forall p r : string,
    hexGroup n p -> Idempotency.hexRun n (p ++ r)%string = Some r.
Proof.
  induction n as [|n IH]; intros p r (Hlen & Hhex).
  - destruct p; [reflexivity | discriminate].
  - destruct p as [|c p]; [discriminate|].
    cbn [hexDigits String.length] in Hlen, Hhex.
    rewrite append_cons. cbn [Idempotency.hexRun].
    apply andb_prop in Hhex. destruct Hhex as (-> & Hhex).
    apply IH. split; [congruence | exact Hhex].
Qed.

Lemma hyphen_inv (s r : string) :
  Idempotency.hyphen s = Some r -> s = ("-" ++ r)%string.
Proof.
  destruct s as [|c rest]; [discriminate|]. cbn.
  destruct (Ascii.eqb_spec c "-"); [|discriminate]. now intros [= ->]; subst.
Qed.

Lemma hyphen_app (r : string) : Idempotency.hyphen ("-" ++ r)%string = Some r.
Proof. reflexivity. Qed.

Lemma length_append (s1 s2 : string) :
  String.length (s1 ++ s2) = (String.length s1 + String.length s2)%nat.
Proof.
  induction s1 as [|c s1 IH]; [reflexivity|].
  rewrite append_cons. cbn [String.length]. now rewrite IH.
Qed.

(** X25. The key test of the idempotency middleware accepts exactly the
    keys of the shape 8-4-4-4-12: five groups of hexadecimal digits, upper
    or lower case, joined by hyphens, with nothing before or after.  An
    accepted key is therefore 36 characters long. *)
Theorem isValidIdempotencyKey_shape (key : string) :
  (Idempotency.isValidIdempotencyKey key = true <-> uuidShaped key) /\
  (Idempotency.isValidIdempotencyKey key = true -> String.length key = 36%nat).
Proof.
  assert (Hshape : Idempotency.isValidIdempotencyKey key = true <-> uuidShaped key).
  { unfold Idempotency.isValidIdempotencyKey. split.
    - destruct (Idempotency.hexRun 8 key) as [s1|] eqn:E1; cbn [mbind option_bind]; [|discriminate].
      destruct (Idempotency.hyphen s1) as [s2|] eqn:E2; cbn [mbind option_bind]; [|discriminate].
      destruct (Idempotency.hexRun 4 s2) as [s3|] eqn:E3; cbn [mbind option_bind]; [|discriminate].
      destruct (Idempotency.hyphen s3) as [s4|] eqn:E4; cbn [mbind option_bind]; [|discriminate].
      destruct (Idempotency.hexRun 4 s4) as [s5|] eqn:E5; cbn [mbind option_bind]; [|discriminate].
      destruct (Idempotency.hyphen s5) as [s6|] eqn:E6; cbn [mbind option_bind]; [|discriminate].
      destruct (Idempotency.hexRun 4 s6) as [s7|] eqn:E7; cbn [mbind option_bind]; [|discriminate].
      destruct (Idempotency.hyphen s7) as [s8|] eqn:E8; cbn [mbind option_bind]; [|discriminate].
      destruct (Idempotency.hexRun 12 s8) as [s9|] eqn:E9; cbn [mbind option_bind]; [|discriminate].
      destruct s9; [|discriminate]. intros _.
      apply hexRun_inv in E1, E3, E5, E7, E9.
      apply hyphen_inv in E2, E4, E6, E8.
      destruct E1 as (a & -> & Ha), E3 as (b & -> & Hb), E5 as (c & -> & Hc),
        E7 as (d & -> & Hd), E9 as (e & -> & He).
      subst. exists a, b, c, d, e.
      split; [now rewrite append_empty | auto 10].
    - intros (a & b & c & d & e & -> & Ha & Hb & Hc & Hd & He).
      rewrite (hexRun_app 8 a _ Ha). cbn [mbind option_bind].
      rewrite hyphen_app. cbn [mbind option_bind].
      rewrite (hexRun_app 4 b _ Hb). cbn [mbind option_bind].
      rewrite hyphen_app. cbn [mbind option_bind].
      rewrite (hexRun_app 4 c _ Hc). cbn [mbind option_bind].
      rewrite hyphen_app. cbn [mbind option_bind].
      rewrite (hexRun_app 4 d _ Hd). cbn [mbind option_bind].
      rewrite hyphen_app. cbn [mbind option_bind].
      rewrite <- (append_empty e) at 1.
      rewrite (hexRun_app 12 e _ He). reflexivity. }
  split; [exact Hshape|].
  intros Hvalid. apply Hshape in Hvalid.
  destruct Hvalid as (a & b & c & d & e & -> & (Ha & _) & (Hb & _) & (Hc & _)
                      & (Hd & _) & (He & _)).
  rewrite !length_append, Ha, Hb, Hc, Hd, He. reflexivity.
Qed.

(** The key of the README example. *)
Lemma isValidIdempotencyKey_shape_witness : String.length Sample.key = 36%nat.
Proof. apply (proj2 (isValidIdempotencyKey_shape Sample.key)). reflexivity. Defined.



(** ** The customer operations *)

(** X27. [updateCustomer] and [deleteCustomer] never touch the ledger:
    debts and payments are as before, and every customer keeps the debt
    balance, the credit balance, the version and the company it had
    ([updateCustomer] may only change the credit limit, [deleteCustomer]
    only clears the active flag); the ledger invariant is therefore kept.
    For an id that names no customer of the company both fail with
    NotFound and change nothing. *)
Theorem customer_operations_keep_ledger (companyId customerId userId : nat) (now : Z)
    (st : Store) :
  (forall (updateData : CustomerService.UpdateData) (st' : Store)
          (r : AppError + Customer.t),
     CustomerService.updateCustomer companyId customerId updateData userId now st
     = (st', r) ->
     debts st' = debts st /\ payments st' = payments st /\
     (forall (id : nat) (c : Customer.t),
        customers st !! id = Some c ->
        exists c' : Customer.t,
          customers st' !! id = Some c' /\
          Customer.debtBalance c' = Customer.debtBalance c /\
          Customer.creditBalance c' = Customer.creditBalance c /\
          Customer.version c' = Customer.version c /\
          Customer.companyId c' = Customer.companyId c /\
          Customer.isActive c' = Customer.isActive c) /\
     (balanceInvariant st -> balanceInvariant st')) /\
  (forall (st' : Store) (r : AppError + unit),
     CustomerService.deleteCustomer companyId customerId userId now st = (st', r) ->
     debts st' = debts st /\ payments st' = payments st /\
     (forall (id : nat) (c : Customer.t),
        customers st !! id = Some c ->
        exists c' : Customer.t,
          customers st' !! id = Some c' /\
          Customer.debtBalance c' = Customer.debtBalance c /\
          Customer.creditBalance c' = Customer.creditBalance c /\
          Customer.version c' = Customer.version c /\
          Customer.companyId c' = Customer.companyId c /\
          Customer.creditLimit c' = Customer.creditLimit c) /\
     (balanceInvariant st -> balanceInvariant st')) /\
  (lookupCustomer st companyId customerId = None ->
   (forall updateData : CustomerService.UpdateData,
      CustomerService.updateCustomer companyId customerId updateData userId now st
      = (st, inl NotFoundError)) /\
   CustomerService.deleteCustomer companyId customerId userId now st
   = (st, inl NotFoundError)).
Proof.
  assert (Hkeep : forall (st' : Store) (customer customer' : Customer.t),
             customers st !! customerId = Some customer ->
             Customer.debtBalance customer' = Customer.debtBalance customer ->
             customers st' = <[customerId := customer']> (customers st) ->
             debts st' = debts st ->
             balanceInvariant st -> balanceInvariant st').
  { intros st' customer customer' Hc Hb Hcs Hds Hinv id c. rewrite Hcs, Hds.
    destruct (decide (customerId = id)) as [<- | Hne].
    - rewrite lookup_insert_eq. intros [= <-]. rewrite Hb. now apply Hinv.
    - rewrite lookup_insert_ne by exact Hne. apply Hinv. }
  split; [|split].
  - intros updateData st' r. unfold CustomerService.updateCustomer.
    destruct (lookupCustomer st companyId customerId) as [customer|] eqn:Hc.
    2:{ intros [= <- _]. split; [reflexivity|]. split; [reflexivity|].
        split; [intros id c Hid; exists c; auto 10 | auto]. }
    apply lookupCustomer_Some in Hc. destruct Hc as (Hc & _).
    intros [= <- _]. cbn [debts payments customers with_customers with_auditLogs].
    split; [reflexivity|]. split; [reflexivity|]. split.
    + intros id c Hid. destruct (decide (customerId = id)) as [<- | Hne].
      * rewrite lookup_insert_eq. eexists. split; [reflexivity|].
        assert (c = customer) by congruence. subst c.
        destruct (CustomerService.creditLimit updateData); cbn; auto 10.
      * rewrite lookup_insert_ne by exact Hne. exists c. auto 10.
    + intros Hinv.
      eapply Hkeep; [exact Hc | | reflexivity | reflexivity | exact Hinv].
      destruct (CustomerService.creditLimit updateData); reflexivity.
  - intros st' r. unfold CustomerService.deleteCustomer.
    destruct (lookupCustomer st companyId customerId) as [customer|] eqn:Hc.
    2:{ intros [= <- _]. split; [reflexivity|]. split; [reflexivity|].
        split; [intros id c Hid; exists c; auto 10 | auto]. }
    apply lookupCustomer_Some in Hc. destruct Hc as (Hc & _).
    intros [= <- _]. cbn [debts payments customers with_customers with_auditLogs].
    split; [reflexivity|]. split; [reflexivity|]. split.
    + intros id c Hid. destruct (decide (customerId = id)) as [<- | Hne].
      * rewrite lookup_insert_eq. eexists. split; [reflexivity|].
        assert (c = customer) by congruence. subst c. cbn. auto 10.
      * rewrite lookup_insert_ne by exact Hne. exists c. auto 10.
    + intros Hinv.
      eapply Hkeep; [exact Hc | | reflexivity | reflexivity | exact Hinv].
      reflexivity.
  - intros Hnone. unfold CustomerService.updateCustomer, CustomerService.deleteCustomer.
    rewrite Hnone. auto.
Qed.

(** The soft delete of the customer of the sample ledger. *)
Lemma customer_operations_keep_ledger_witness : balanceInvariant Sample.inactiveLedger.
Proof.
  apply (proj1 (proj2 (customer_operations_keep_ledger 1 1 7 0 Sample.ledger))
           Sample.inactiveLedger
           (snd (CustomerService.deleteCustomer 1 1 7 0 Sample.ledger))
           (surjective_pairing _)).
  apply balanceInvariantb_spec. vm_compute. reflexivity.
Defined.

(** ** The audit trail feeds the change pull *)

Lemma getChanges_complete (companyId : nat) (sinceDate : Z) (limit : nat) (st : Store)
    (page : SyncService.ChangesPage) (log : AuditLog.t) :
  SyncService.getChanges companyId (Some sinceDate) limit st = inr page ->
  SyncService.hasMore page = false ->
  In log (auditLogs st) -> AuditLog.companyId log = companyId ->
  sinceDate < AuditLog.timestamp log ->
  In (changeOf log) (SyncService.changes page).
Proof.
  unfold SyncService.getChanges. fold changeOf. intros [= <-].
  cbn [SyncService.hasMore SyncService.changes].
  intros Hmore Hin Hc Ht. apply in_map.
  rewrite length_map in Hmore. rewrite (limitTo_all _ _ Hmore).
  apply sortByTimestamp_In, filter_In. split; [exact Hin|].
  apply andb_true_intro. split; [now apply Nat.eqb_eq | now apply Z.ltb_lt].
Qed.

(** X28. A committed payment shows up in the next pull of changes: after
    a [createPayment] at time [now], a [getChanges] of the same company
    with [since] earlier than [now] whose page is complete ([hasMore] is
    false) contains a payment-creation change for the new payment id with
    the timestamp [now]. *)
Theorem createPayment_visible_in_changes (companyId customerId : nat)
    (paymentData : PaymentService.PaymentData) (userId : nat) (now : Z)
    (st st' : Store) (paymentId : nat) (payment : Payment.t)
    (sinceDate : Z) (limit : nat) (page : SyncService.ChangesPage) :
  PaymentService.createPayment companyId customerId paymentData userId now st
  = (st', inr (paymentId, payment)) ->
  sinceDate < now ->
  SyncService.getChanges companyId (Some sinceDate) limit st' = inr page ->
  SyncService.hasMore page = false ->
  exists change : SyncService.Change.t,
    In change (SyncService.changes page) /\
    SyncService.Change.entity change = "Payment" /\
    SyncService.Change.entityId change = paymentId /\
    SyncService.Change.action change = PAYMENT_CREATE /\
    SyncService.Change.timestamp change = now.
Proof.
  intros H Hsince Hpage Hmore.
  destruct (createPayment_commit_store _ _ _ _ _ _ _ _ _ H)
    as (customer & r & st1 & _ & _ & _ & _ & _ & _ & _ & Hst).
  eexists. split.
  - eapply (getChanges_complete _ _ _ _ _ _ Hpage Hmore).
    + rewrite Hst. cbn [auditLogs]. apply in_or_app. right. left. reflexivity.
    + reflexivity.
    + exact Hsince.
  - repeat split.
Qed.

(** The split payment on the sample ledger at time 1000, pulled since 0. *)
Lemma createPayment_visible_in_changes_witness :
  exists change : SyncService.Change.t,
    In change
      (SyncService.changes
         (SyncService.mkChangesPage 0
            [SyncService.Change.mk "Payment" 0 PAYMENT_CREATE 1000
               (AuditLog.PaymentCreated 1 (Sample.units 500) CASH
                  [AuditLog.mkDebtUpdate 10 "INV-1" (Sample.units 500) (Sample.units 200)
                     PARTIAL]
                  (Sample.units 200) (Sample.units 200) (Sample.units 200))]
            false 1000)) /\
    SyncService.Change.entity change = "Payment" /\
    SyncService.Change.entityId change = 0%nat /\
    SyncService.Change.action change = PAYMENT_CREATE /\
    SyncService.Change.timestamp change = 1000.
Proof.
  apply (createPayment_visible_in_changes 1 1 Sample.splitPayment 7 1000 Sample.ledger
           (fst (PaymentService.createPayment 1 1 Sample.splitPayment 7 1000 Sample.ledger))
           0%nat
           (Payment.mk 1 1 (Sample.units 500) CASH
              [Payment.AppliedDebt.mk 10 (Sample.units 300)] (Sample.units 200)
              None 1000 7)
           0 10%nat).
  - vm_compute. reflexivity.
  - reflexivity.
  - vm_compute. reflexivity.
  - reflexivity.
Defined.

(** ** The hook of the Payment schema as an invariant *)



